(** * export-ignore-rules.py: paginated fetch of issue exceptions and export

    A shallow embedding of [src/exceptions/export/export-ignore-rules.py].
    The script pages through a REST endpoint with [requests], accumulates
    the records found under the ['exceptions'] field and writes them to
    [paginated_results.json] or [paginated_results.csv].

    The Python values that reach the script are the ones [response.json()]
    builds; the interpreter's own operations on them ([in], indexing,
    truthiness, [list.extend]) are written out with the exceptions they
    raise.  The remote server is a parameter of the development.  The
    library calls the script makes ([argparse], [csv], [json], [print],
    [int]) follow CPython 3.11; standard output and the files are UTF-8 text
    streams with strict error handling. *)

From Stdlib Require Import ZArith Ascii String SpecFloat.
From stdpp Require Import base strings list gmap pretty.

Local Open Scope Z_scope.
#[local] Set Warnings "-register-all".
Local Open Scope string_scope.
Local Open Scope list_scope.

(** ** Strings *)

(** A Python [str] is held as the bytes of its UTF-8 encoding, a lone
    surrogate (which a [str] may hold) as the three bytes the codec gives it
    under [surrogatepass].  Equality and the substring test on the bytes are
    those on the characters. *)

(** A continuation byte of a character of several bytes. *)
Definition continuation (b : ascii) : bool :=
  let n := nat_of_ascii b in
  ((128 <=? n) && (n <=? 191))%nat.

(** The characters of a string, each as a string of its own. *)
Definition continues (s : string) : bool :=
  match s with
  | String b _ => continuation b
  | "" => false
  end.

Fixpoint chars (s : string) : list string :=
  match s with
  | "" => []
  | String b s' =>
      match chars s' with
      | c :: cs =>
          if continues s' then String b c :: cs else String b "" :: c :: cs
      | [] => [String b ""]
      end
  end.

(** The code point of a character given by its bytes. *)
Definition code_point (c : string) : N :=
  match N_of_ascii <$> list_ascii_of_string c with
  | [b] => b
  | [b1; b2] => (b1 - 192) * 64 + (b2 - 128)
  | [b1; b2; b3] => (b1 - 224) * 4096 + (b2 - 128) * 64 + (b3 - 128)
  | [b1; b2; b3; b4] =>
      (b1 - 240) * 262144 + (b2 - 128) * 4096 + (b3 - 128) * 64 + (b4 - 128)
  | _ => 0
  end%N.

(** Whether the strict UTF-8 codec encodes the string: it holds no
    surrogate, whose bytes start with 237 followed by 160 or more. *)
Fixpoint encodable (s : string) : bool :=
  match s with
  | "" => true
  | String b s' =>
      match s' with
      | String b' _ => negb ((nat_of_ascii b =? 237) && (160 <=? nat_of_ascii b'))%nat
      | "" => true
      end
      && encodable s'
  end.

(** A string of ASCII characters only. *)
Fixpoint plain (s : string) : bool :=
  match s with
  | "" => true
  | String b s' => (nat_of_ascii b <? 128)%nat && plain s'
  end.

(** ** Python values *)

(** What [json.loads] produces: [None], [bool], [int], [float] (an IEEE
    binary64, kept as [spec_float]), [str], [list], and [dict] with string
    keys in insertion order. *)
Inductive value :=
  | VNone
  | VBool (b : bool)
  | VInt (n : Z)
  | VFloat (x : spec_float)
  | VStr (s : string)
  | VList (l : list value)
  | VDict (d : list (string * value)).

(** The exceptions the script can meet. *)
Inductive exn :=
  | TypeError
  | IndexError
  | KeyError
  | AttributeError
  | ValueError
  | JSONDecodeError
  | RequestException
  | UnicodeEncodeError
  | SystemExit (code : Z).

(** [bool(v)]: the truth value Python gives to [v]. *)
Definition truthy (v : value) : bool :=
  match v with
  | VNone => false
  | VBool b => b
  | VInt n => negb (n =? 0)%Z
  | VFloat (S754_zero _) => false
  | VFloat _ => true
  | VStr "" => false
  | VStr _ => true
  | VList [] => false
  | VList _ => true
  | VDict [] => false
  | VDict _ => true
  end.

(** [d.get(key)] on a dict held as an association list. *)
Fixpoint dict_get (key : string) (d : list (string * value)) : option value :=
  match d with
  | [] => None
  | (k, v) :: d' => if String.eqb k key then Some v else dict_get key d'
  end.

Definition dict_keys (d : list (string * value)) : list string := d.*1.

(** [sub in s] on strings. *)
Fixpoint substring_of (sub s : string) : bool :=
  String.prefix sub s ||
  match s with
  | "" => false
  | String _ s' => substring_of sub s'
  end.

(** [str(n)] for an [int]. *)
Definition str (n : Z) : string := pretty n.

(** What [argparse] can store for an option of the script: a [str], an
    [int], or the empty list it stores for an explicit [--] (see
    [parse_known_args]).  These are the values [main] has for the category,
    the count and the output format. *)
Inductive arg :=
  | Text (s : string)
  | Number (n : Z)
  | Empty_list.

Coercion Text : string >-> arg.
Coercion Number : Z >-> arg.

(** [str(a)], the text [str.format] puts in a field. *)
Definition render (a : arg) : string :=
  match a with
  | Text s => s
  | Number n => str n
  | Empty_list => "[]"
  end.

(** [a == s] for a string [s]. *)
Definition is_text (s : string) (a : arg) : bool :=
  match a with
  | Text t => String.eqb t s
  | _ => false
  end.

(** ** [str.format] *)

(** Keyword arguments, each already rendered as text. *)
Fixpoint kw_get (name : string) (kw : list (string * string)) : option string :=
  match kw with
  | [] => None
  | (k, text) :: kw' => if String.eqb k name then Some text else kw_get name kw'
  end.

Definition on_ok {A B} (f : A → B) (r : exn + A) : exn + B :=
  match r with
  | inl e => inl e
  | inr a => inr (f a)
  end.

(** The fragment of [str.format] with keyword arguments that the script
    uses: named fields [{name}] without conversion or format specification,
    each replaced by the text of the keyword argument; an unknown field is a
    [KeyError], an unbalanced brace a [ValueError].  Brace escapes are not
    modelled. *)
Fixpoint format_go (kw : list (string * string)) (field : option string)
    (template : string) : exn + string :=
  match template, field with
  | "", None => inr ""
  | "", Some _ => inl ValueError
  | String c rest, None =>
      if Ascii.eqb c "{"%char then format_go kw (Some "") rest
      else if Ascii.eqb c "}"%char then inl ValueError
      else on_ok (String c) (format_go kw None rest)
  | String c rest, Some name =>
      if Ascii.eqb c "}"%char then
        match kw_get name kw with
        | Some text => on_ok (String.app text) (format_go kw None rest)
        | None => inl KeyError
        end
      else format_go kw (Some (name +:+ String c "")) rest
  end.

Definition format (template : string) (kw : list (string * string)) : exn + string :=
  format_go kw None template.

(** ** The world the script runs in *)

(** An HTTP GET as [requests.get(url, headers=headers)] sends it. *)
Record request := Request {
  req_url : string;
  req_headers : list (string * string)
}.

(** A response: its status code and what [response.json()] gives, [None]
    when the body is not JSON. *)
Record response := Response {
  status_code : Z;
  json : option value
}.

(** What a GET comes back with: a response, or a transport failure
    (connection error, timeout) that [requests] raises. *)
Inductive reply :=
  | Replied (r : response)
  | Failed.

(** What is printed on standard output: [print(v)] of a value, [print(s)]
    of a line of text the script builds, or the help text of the argument
    parser. *)
Inductive printed :=
  | Show (v : value)
  | Line (s : string)
  | Usage.

(** What has been written to an open file, in order: [json.dump] of a value
    with its indentation, and the rows a [csv] writer has written, each with
    its cells before the dialect renders them. *)
Inductive chunk :=
  | Json_text (v : value) (indent : Z)
  | Csv_row (cells : list value).

Record world := World {
  sent : list request;
  stdout : list printed;
  files : gmap string (list chunk)
}.

Definition initial (fs : gmap string (list chunk)) : world :=
  World [] [] fs.

(** ** Computations *)

(** How a computation ends: it returns, it raises, or it is still running
    when the fuel of a [while True] is used up. *)
Inductive outcome (A : Type) :=
  | Returns (a : A)
  | Raises (e : exn)
  | Running.
Arguments Returns {A} a.
Arguments Raises {A} e.
Arguments Running {A}.

Definition M (A : Type) : Type := world → outcome A * world.

#[export] Instance M_ret : MRet M := λ A a w, (Returns a, w).
#[export] Instance M_bind : MBind M := λ A B f m w,
  match m w with
  | (Returns a, w') => f a w'
  | (Raises e, w') => (Raises e, w')
  | (Running, w') => (Running, w')
  end.

Definition raise {A} (e : exn) : M A := λ w, (Raises e, w).
Definition running {A} : M A := λ w, (Running, w).

Definition lift {A} (r : exn + A) : M A :=
  match r with
  | inl e => raise e
  | inr a => mret a
  end.

(** Whether standard output can encode what is printed.  A string is
    printed as it is; any other value is printed by its [repr], which
    escapes what the codec could not encode. *)
Definition printable (o : printed) : bool :=
  match o with
  | Show (VStr s) | Line s => encodable s
  | Show _ | Usage => true
  end.

(** [print(...)]: nothing is printed when the text cannot be encoded. *)
Definition print (o : printed) : M unit := λ w,
  if printable o
  then (Returns (), World (sent w) (stdout w ++ [o]) (files w))
  else (Raises UnicodeEncodeError, w).

Section Script.

(** The remote API. *)
Variable remote : request → reply.

(** [requests.get(url, headers=headers)] *)
Definition requests_get (url : string) (headers : list (string * string)) : M response :=
  λ w,
    let req := Request url headers in
    let w' := World (sent w ++ [req]) (stdout w) (files w) in
    match remote req with
    | Replied r => (Returns r, w')
    | Failed => (Raises RequestException, w')
    end.

(** [response.json()] *)
Definition response_json (r : response) : M value :=
  match json r with
  | Some v => mret v
  | None => raise JSONDecodeError
  end.

(** [key in data] for a string [key]. *)
Definition py_in (key : string) (data : value) : M bool :=
  match data with
  | VDict d => mret (bool_decide (key ∈ dict_keys d))
  | VList l => mret (existsb (λ v, match v with VStr s => String.eqb key s | _ => false end) l)
  | VStr s => mret (substring_of key s)
  | VNone | VBool _ | VInt _ | VFloat _ => raise TypeError
  end.

(** [data[key]] for a string [key]. *)
Definition py_getitem (data : value) (key : string) : M value :=
  match data with
  | VDict d =>
      match dict_get key d with
      | Some v => mret v
      | None => raise KeyError
      end
  | _ => raise TypeError
  end.

(** [results.extend(items)]: the elements of a list, the keys of a dict,
    the characters of a string; anything else is not iterable. *)
Definition extend (results : list value) (items : value) : M (list value) :=
  match items with
  | VList l => mret (results ++ l)
  | VDict d => mret (results ++ (VStr <$> dict_keys d))
  | VStr s => mret (results ++ (VStr <$> chars s))
  | VNone | VBool _ | VInt _ | VFloat _ => raise TypeError
  end.

Definition base_url : string :=
  "https://app.fossa.com/api/v2/issues/exceptions?filters[category]={category}&page={page}&count={count}".

(** The [while True] of [fetch_data], one unit of fuel for each turn. *)
Fixpoint fetch_loop (fuel : nat) (category count : arg)
    (headers : list (string * string)) (page : Z) (results : list value)
    : M (list value) :=
  match fuel with
  | O => running
  | S fuel' =>
      url ← lift (format base_url
                    [("category", render category); ("page", str page);
                     ("count", render count)]);
      response ← requests_get url headers;
      if (status_code response =? 200)%Z then
        data ← response_json response;
        print (Show data);;
        print (Line ("paginate: " +:+ str page));;
        present ← (if truthy data then py_in "exceptions" data else mret false);
        if present : bool then
          items ← py_getitem data "exceptions";
          if negb (truthy items) then mret results
          else
            results' ← extend results items;
            fetch_loop fuel' category count headers (page + 1)%Z results'
        else mret results
      else
        print (Line ("Failed to fetch page " +:+ str page +:+ ": Status Code "
                       +:+ str (status_code response)));;
        mret results
  end.

Definition fetch_data (fuel : nat) (category count : arg)
    (access_token : string) : M (list value) :=
  let headers := [("accept", "application/json");
                  ("authorization", "Bearer " +:+ access_token)] in
  fetch_loop fuel category count headers 1%Z [].

End Script.

(** ** Command line *)

(** The attributes of the namespace [parse_args] fills in. *)
Record namespace := Namespace {
  ns_access_token : option string;
  ns_category : arg;
  ns_count : arg;
  ns_output : arg
}.

(** *** [int] *)

(** The ASCII white space that [int] skips at both ends of the text. *)
Definition ascii_space (b : ascii) : bool :=
  let n := nat_of_ascii b in
  ((9 <=? n) && (n <=? 13) || (n =? 32))%nat.

(** The characters beyond ASCII that [int] takes for a space. *)
Definition unicode_space (cp : N) : bool :=
  ((cp =? 133) || (cp =? 160) || (cp =? 5760) || (8192 <=? cp) && (cp <=? 8202)
   || (cp =? 8232) || (cp =? 8233) || (cp =? 8239) || (cp =? 8287)
   || (cp =? 12288))%N.

(** The code point of the digit zero of every script (the decimal digits of
    Unicode 14.0, the version of CPython 3.11); the nine code points after
    each are its digits one to nine. *)
Definition zeros : list N :=
  [48; 1632; 1776; 1984; 2406; 2534; 2662; 2790;
   2918; 3046; 3174; 3302; 3430; 3558; 3664; 3792;
   3872; 4160; 4240; 6112; 6160; 6470; 6608; 6784;
   6800; 6992; 7088; 7232; 7248; 42528; 43216; 43264;
   43472; 43504; 43600; 44016; 65296; 66720; 68912; 69734;
   69872; 69942; 70096; 70384; 70736; 70864; 71248; 71360;
   71472; 71904; 72016; 72784; 73040; 73120; 92768; 92864;
   93008; 120782; 120792; 120802; 120812; 120822; 123200; 123632;
   125264; 130032]%N.

(** The value of a decimal digit, of any script. *)
Definition decimal (cp : N) : option N :=
  (λ zero, cp - zero)%N <$> List.find (λ zero, (zero <=? cp) && (cp <? zero + 10))%N zeros.

(** A character of the text as [int] reads it: an ASCII character is
    itself, a space beyond ASCII is a space, a digit of another script is
    the ASCII digit of its value; no other character is read. *)
Definition int_char (c : string) : option ascii :=
  match c with
  | String b "" => if (nat_of_ascii b <? 128)%nat then Some b else None
  | _ =>
      let cp := code_point c in
      if unicode_space cp then Some " "%char
      else (λ d, ascii_of_N (48 + d)) <$> decimal cp
  end.

Fixpoint lstrip (s : string) : string :=
  match s with
  | String c s' => if ascii_space c then lstrip s' else s
  | "" => ""
  end.

Fixpoint rstrip (s : string) : string :=
  match s with
  | String c s' =>
      match rstrip s' with
      | "" => if ascii_space c then "" else String c ""
      | r => String c r
      end
  | "" => ""
  end.

(** Decimal digits, a single underscore allowed between two digits; no
    more than 4300 digits, the limit CPython sets on the conversion. *)
Fixpoint int_digits (s : string) (acc : Z) (digits : nat) (after_digit : bool)
    : option Z :=
  match s with
  | "" => if after_digit && (digits <=? 4300)%nat then Some acc else None
  | String c s' =>
      match Ascii.is_nat c with
      | Some d => int_digits s' (10 * acc + Z.of_nat d)%Z (S digits) true
      | None =>
          if Ascii.eqb c "_"%char && after_digit then int_digits s' acc digits false
          else None
      end
  end.

(** [int(text)] in base 10; [None] stands for its [ValueError]. *)
Definition int (text : string) : option Z :=
  read ← mapM int_char (chars text);
  match rstrip (lstrip (string_of_list_ascii read)) with
  | String "-" digits => Z.opp <$> int_digits digits 0 0 false
  | String "+" digits => int_digits digits 0 0 false
  | digits => int_digits digits 0 0 false
  end.

(** *** The parser of [main] *)

(** An optional argument taking one value: its option string, how the text
    of a value is converted and checked ([type], then [choices]; [None] when
    [argparse] rejects the text), and how a value is stored. *)
Record optional := Optional {
  option_string : string;
  convert : string → option arg;
  assign : arg → namespace → namespace
}.

(** The four [add_argument] calls of [main]: the positional [access_token]
    starts unset, the optionals start at their defaults. *)
Definition defaults : namespace := Namespace None "licensing" 1000 "json".

Definition optionals : list optional := [
  Optional "--category"
    (λ text, Some (Text text))
    (λ v ns, Namespace (ns_access_token ns) v (ns_count ns) (ns_output ns));
  Optional "--count"
    (λ text, Number <$> int text)
    (λ v ns, Namespace (ns_access_token ns) (ns_category ns) v (ns_output ns));
  Optional "--output"
    (λ text, if bool_decide (text ∈ ["json"; "csv"]) then Some (Text text) else None)
    (λ v ns, Namespace (ns_access_token ns) (ns_category ns) (ns_count ns) v)
].

(** How [argparse] reads one command-line string. *)
Inductive arg_kind :=
  | Plain                                             (* a positional string *)
  | Dashes                                            (* [--] *)
  | Help (short : bool) (explicit : option string)    (* [-h], [--help] *)
  | Opt (o : optional) (explicit : option string)     (* an optional, [=value] *)
  | Ambiguous                                         (* prefix of several *)
  | Unknown.                                          (* no such option *)

(** [s.split('=', 1)] when [s] has an ['=']. *)
Fixpoint split_eq (s : string) : option (string * string) :=
  match s with
  | "" => None
  | String c s' =>
      if Ascii.eqb c "="%char then Some ("", s')
      else prod_map (String c) id <$> split_eq s'
  end.

(** A decimal digit, of any script: what [\d] matches. *)
Definition is_digit (c : string) : bool :=
  bool_decide (is_Some (decimal (code_point c))).

(** The digits at the front of a list of characters, and what follows. *)
Fixpoint span_digits (cs : list string) : list string * list string :=
  match cs with
  | c :: cs' =>
      if is_digit c then prod_map (cons c) id (span_digits cs') else ([], cs)
  | [] => ([], [])
  end.

(** [s] without a line feed at its very end, where [$] also matches. *)
Fixpoint chomp (s : string) : string :=
  match s with
  | String c s' => if String.eqb s (String "010" "") then "" else String c (chomp s')
  | "" => ""
  end.

(** [argparse]'s test for a negative number: a dash, then digits, or
    digits, a dot and at least one digit. *)
Definition negative_number (s : string) : bool :=
  match chars (chomp s) with
  | "-" :: cs =>
      match span_digits cs with
      | (_ :: _, []) => true
      | (_, "." :: c :: frac) => forallb is_digit (c :: frac)
      | _ => false
      end
  | _ => false
  end.

(** [s[n:]] *)
Fixpoint string_drop (n : nat) (s : string) : string :=
  match n, s with
  | S n', String _ s' => string_drop n' s'
  | _, _ => s
  end.

Fixpoint has_space (s : string) : bool :=
  match s with
  | "" => false
  | String c s' => Ascii.eqb c " "%char || has_space s'
  end.

(** The option strings of the parser, [--help] included, that start with
    [prefix]. *)
Definition abbreviated (prefix : string) : list (option optional) :=
  (if String.prefix prefix "--help" then [None] else [])
  ++ (Some <$> filter (λ o, String.prefix prefix (option_string o) = true) optionals).

Definition exact (s : string) : option optional :=
  list_find (λ o, option_string o = s) optionals ≫= λ '(_, o), Some o.

(** The classification of a command-line string, as [_parse_optional]
    makes it. *)
Definition classify (arg : string) : arg_kind :=
  match arg with
  | String "-" _ =>
      if String.eqb arg "--" then Dashes
      else if String.eqb arg "-h" then Help true None
      else if String.eqb arg "--help" then Help false None
      else if String.eqb arg "-" then Plain
      else
        match exact arg with
        | Some o => Opt o None
        | None =>
            let '(name, explicit) :=
              match split_eq arg with
              | Some (name, text) => (name, Some text)
              | None => (arg, None)
              end in
            if String.eqb name "-h" then Help true explicit
            else if String.eqb name "--help" then Help false explicit
            else
              match exact name with
              | Some o => Opt o explicit
              | None =>
                  if String.prefix "--" arg then
                    match abbreviated name with
                    | [] => if has_space arg then Plain else Unknown
                    | [None] => Help false explicit
                    | [Some o] => Opt o explicit
                    | _ => Ambiguous
                    end
                  else if String.prefix "-h" arg then Help true (Some (string_drop 2 arg))
                  else if negative_number arg then Plain
                  else if has_space arg then Plain
                  else Unknown
              end
        end
  | _ => Plain
  end.

(** Where the parser stands: the namespace, the strings left over, and
    whether the string just read was taken for [access_token]. *)
Record parsing := Parsing {
  parsed : namespace;
  extras : list string;
  just_token : bool
}.

(** A positional string: [access_token] takes the first one, the others are
    left over. *)
Definition positional (arg : string) (st : parsing) : parsing :=
  match ns_access_token (parsed st) with
  | None =>
      Parsing (Namespace (Some arg) (ns_category (parsed st)) (ns_count (parsed st))
                 (ns_output (parsed st)))
              (extras st) true
  | Some _ => Parsing (parsed st) (extras st ++ [arg]) false
  end.

(** The first [--]: the strings after it are all positional.  It goes with
    [access_token] when that is the string right before it or right after
    it; otherwise it is left over itself. *)
Definition dashes (rest : list string) (st : parsing) : parsing :=
  match ns_access_token (parsed st), just_token st, rest with
  | None, _, next :: more =>
      Parsing (Namespace (Some next) (ns_category (parsed st)) (ns_count (parsed st))
                 (ns_output (parsed st)))
              (extras st ++ more) true
  | None, _, [] => Parsing (parsed st) (extras st ++ ["--"]) false
  | Some _, true, _ => Parsing (parsed st) (extras st ++ rest) false
  | Some _, false, _ => Parsing (parsed st) (extras st ++ "--" :: rest) false
  end.

(** A value for an optional: an explicit [--] is dropped by [_get_values],
    which then stores the empty list, unconverted and unchecked. *)
Definition store (o : optional) (text : string) (explicit : bool) (st : parsing)
    : option parsing :=
  if explicit && String.eqb text "--"
  then Some (Parsing (assign o Empty_list (parsed st)) (extras st) false)
  else (λ v, Parsing (assign o v (parsed st)) (extras st) false) <$> convert o text.

(** [-h] with more after it: flags in one string, each of which has to be
    [h] again. *)
Fixpoint all_h (s : string) : bool :=
  match s with
  | "" => true
  | String c s' => Ascii.eqb c "h"%char && all_h s'
  end.

Definition asks_help (short : bool) (explicit : option string) : bool :=
  match explicit with
  | None => true
  | Some flags => short && negb (String.eqb flags "") && all_h flags
  end.

(** [parse_known_args]: the command line from left to right.  A parse error
    is [SystemExit 2]; help is [SystemExit 0], its text printed first. *)
Fixpoint parse_known_args (argv : list string) (st : parsing) : M parsing :=
  match argv with
  | [] => mret st
  | arg :: rest =>
      match classify arg with
      | Plain => parse_known_args rest (positional arg st)
      | Dashes => mret (dashes rest st)
      | Help short explicit =>
          if asks_help short explicit then print Usage;; raise (SystemExit 0)
          else raise (SystemExit 2)
      | Opt o (Some text) =>
          match store o text true st with
          | Some st' => parse_known_args rest st'
          | None => raise (SystemExit 2)
          end
      | Opt o None =>
          match rest with
          | text :: rest' =>
              match classify text, store o text false st with
              | Plain, Some st' => parse_known_args rest' st'
              | _, _ => raise (SystemExit 2)
              end
          | [] => raise (SystemExit 2)
          end
      | Ambiguous => raise (SystemExit 2)
      | Unknown => parse_known_args rest (Parsing (parsed st) (extras st ++ [arg]) false)
      end
  end.

(** The arguments as [main] reads them off the namespace. *)
Record arguments := Args {
  access_token : string;
  category : arg;
  count : arg;
  output : arg
}.

(** Every string up to the first [--] is classified before any of them is
    acted upon, and an ambiguous abbreviation is reported then. *)
Fixpoint ambiguous (argv : list string) : bool :=
  match argv with
  | [] => false
  | arg :: rest =>
      match classify arg with
      | Dashes => false
      | Ambiguous => true
      | _ => ambiguous rest
      end
  end.

(** [parser.parse_args()]: a missing [access_token] and left-over strings
    are errors. *)
Definition parse_args (argv : list string) : M arguments :=
  if ambiguous argv then raise (SystemExit 2)
  else
    st ← parse_known_args argv (Parsing defaults [] false);
    match ns_access_token (parsed st), extras st with
    | Some token, [] =>
        mret (Args token (ns_category (parsed st)) (ns_count (parsed st))
                (ns_output (parsed st)))
    | _, _ => raise (SystemExit 2)
    end.

(** ** Files *)

(** [open(name, 'w')]: the file is created, or emptied when it exists. *)
Definition open_w (name : string) : M unit := λ w,
  (Returns (), World (sent w) (stdout w) (<[name := []]> (files w))).

(** Whether the file can encode a cell of a row: a string is written as it
    is, any other cell by its [str], which escapes what could not be
    encoded. *)
Definition encodable_cell (cell : value) : bool :=
  match cell with
  | VStr s => encodable s
  | _ => true
  end.

(** Whether the file can encode what is written.  [json.dump] writes ASCII
    only; a row is written as one line. *)
Definition writable (c : chunk) : bool :=
  match c with
  | Json_text _ _ => true
  | Csv_row cells => forallb encodable_cell cells
  end.

(** A write to the file open under [name]: nothing of it is written when
    its text cannot be encoded. *)
Definition write (name : string) (c : chunk) : M unit := λ w,
  if writable c
  then (Returns (), World (sent w) (stdout w)
                      (<[name := default [] (files w !! name) ++ [c]]> (files w)))
  else (Raises UnicodeEncodeError, w).

(** [results[0]] *)
Definition first_item (results : list value) : M value :=
  match results with
  | v :: _ => mret v
  | [] => raise IndexError
  end.

(** [v.keys()] *)
Definition keys (v : value) : M (list string) :=
  match v with
  | VDict d => mret (dict_keys d)
  | _ => raise AttributeError
  end.

(** ** [csv.DictWriter] *)

(** [DictWriter._dict_to_list] with the defaults [restval=''] and
    [extrasaction='raise']: a key outside [fieldnames] is a [ValueError], a
    field the row lacks is written as the empty string. *)
Definition dict_to_list (fieldnames : list string) (rowdict : value) : M (list value) :=
  match rowdict with
  | VDict d =>
      if bool_decide (dict_keys d ⊆ fieldnames)
      then mret ((λ key, default (VStr "") (dict_get key d)) <$> fieldnames)
      else raise ValueError
  | _ => raise AttributeError
  end.

(** [writeheader()]: the row of the field names. *)
Definition writeheader (name : string) (fieldnames : list string) : M unit :=
  write name (Csv_row (VStr <$> fieldnames)).

(** [writerows(rowdicts)]: each row is converted and written in turn. *)
Fixpoint writerows (name : string) (fieldnames : list string)
    (rowdicts : list value) : M unit :=
  match rowdicts with
  | [] => mret ()
  | rowdict :: rest =>
      cells ← dict_to_list fieldnames rowdict;
      write name (Csv_row cells);;
      writerows name fieldnames rest
  end.

(** ** [main] *)

(** [len(results)] *)
Definition len (results : list value) : Z := Z.of_nat (length results).

Section Main.

Variable remote : request → reply.

Definition main (fuel : nat) (argv : list string) : M unit :=
  args ← parse_args argv;
  results ← fetch_data remote fuel (category args) (count args)
              (access_token args);
  if is_text "json" (output args) then
    open_w "paginated_results.json";;
    write "paginated_results.json" (Json_text (VList results) 2);;
    print (Line ("Pagination complete. " +:+ str (len results)
                   +:+ " items retrieved and saved to 'paginated_results.json'."))
  else if is_text "csv" (output args) then
    let csv_filename := "paginated_results.csv" in
    open_w csv_filename;;
    fieldnames ← (first ← first_item results; keys first);
    writeheader csv_filename fieldnames;;
    writerows csv_filename fieldnames results;;
    print (Line ("Pagination complete. " +:+ str (len results)
                   +:+ " items converted and saved to 'paginated_results.csv'."))
  else
    print (Line "Invalid output format. Choose 'json' or 'csv'.").

End Main.

(** The export step by itself: what [main] does with [args.output] and the
    results once [fetch_data] has returned (its [if] ... [elif] ... [else]). *)
Definition export (output : arg) (results : list value) : M unit :=
  if is_text "json" output then
    open_w "paginated_results.json";;
    write "paginated_results.json" (Json_text (VList results) 2);;
    print (Line ("Pagination complete. " +:+ str (len results)
                   +:+ " items retrieved and saved to 'paginated_results.json'."))
  else if is_text "csv" output then
    let csv_filename := "paginated_results.csv" in
    open_w csv_filename;;
    fieldnames ← (first ← first_item results; keys first);
    writeheader csv_filename fieldnames;;
    writerows csv_filename fieldnames results;;
    print (Line ("Pagination complete. " +:+ str (len results)
                   +:+ " items converted and saved to 'paginated_results.csv'."))
  else
    print (Line "Invalid output format. Choose 'json' or 'csv'.").

(** ** Pagination: the vocabulary of the statements *)

(** The URL the API documents for a page, written as a concatenation. *)
Definition page_url (category : string) (count page : Z) : string :=
  "https://app.fossa.com/api/v2/issues/exceptions?filters[category]=" +:+ category
    +:+ "&page=" +:+ str page +:+ "&count=" +:+ str count.

(** The request for a page: that URL with the two headers. *)
Definition page_request (category : string) (count : Z) (access_token : string)
    (page : Z) : request :=
  Request (page_url category count page)
          [("accept", "application/json");
           ("authorization", "Bearer " +:+ access_token)].

(** The requests for pages [1] to [n], in page order. *)
Definition page_requests (category : string) (count : Z) (access_token : string)
    (n : nat) : list request :=
  (λ i : nat, page_request category count access_token (Z.of_nat i + 1)) <$> seq 0 n.

(** A 200 response whose body is an object with the non-empty array [items]
    under ['exceptions']. *)
Definition full_page (r : reply) (items : list value) : Prop :=
  ∃ d, r = Replied (Response 200 (Some (VDict d)))
       ∧ dict_get "exceptions" d = Some (VList items)
       ∧ items ≠ [].

(** A 200 response whose body is an object with an empty array under
    ['exceptions'], or without that field. *)
Definition exhausted_page (r : reply) : Prop :=
  ∃ d, r = Replied (Response 200 (Some (VDict d)))
       ∧ (dict_get "exceptions" d = Some (VList []) ∨ dict_get "exceptions" d = None).

(** A response with a status other than 200. *)
Definition error_page (r : reply) : Prop :=
  ∃ resp, r = Replied resp ∧ status_code resp ≠ 200%Z.

(** A 200 response whose parsed body is falsy. *)
Definition falsy_page (r : reply) : Prop :=
  ∃ data, r = Replied (Response 200 (Some data)) ∧ truthy data = false.

(** The responses after which the loop of [fetch_data] is left by [break]. *)
Definition last_page (r : reply) : Prop :=
  exhausted_page r ∨ error_page r ∨ falsy_page r.

(** ** Export: the vocabulary of the statements *)






(** ** Pagination, continued *)

(** [remote] answers the requests for pages [1], [2], ... with the arrays
    of [pages], one full page each. *)
Definition serves (remote : request → reply) (category : string) (count : Z)
    (access_token : string) (pages : list (list value)) : Prop :=
  ∀ (i : nat) (items : list value),
    pages !! i = Some items →
    full_page (remote (page_request category count access_token (Z.of_nat i + 1))) items.

(** ** Standard output and the parser: the vocabulary of the statements *)

(** The line the last branch of [main] prints. *)
Definition invalid_line : printed :=
  Line "Invalid output format. Choose 'json' or 'csv'.".

(** [m] appends to standard output only, never the line of the last branch
    of [main], and what it returns satisfies [Q]. *)
Definition prints {A} (Q : A → Prop) (m : M A) : Prop :=
  ∀ w, ∃ out,
    stdout (m w).2 = stdout w ++ out
    ∧ (invalid_line ∉ out)
    ∧ ∀ a, (m w).1 = Returns a → Q a.

(** The two values [--output] may take. *)
Definition chosen (output : arg) : Prop := output = "json" ∨ output = "csv".

(** A command line on which [--output], or an abbreviation of it, is given
    the explicit value [--], as in [--output=--]. *)
Definition dashed (argv : list string) : Prop :=
  ∃ arg name, arg ∈ argv ∧ split_eq arg = Some (name, "--")
              ∧ String.prefix name "--output" = true.

(** What [args.output] can be after such a command line: one of the two
    formats, or the empty list that [argparse] stores for an explicit [--]. *)
Definition settled (argv : list string) (output : arg) : Prop :=
  chosen output ∨ (output = Empty_list ∧ dashed argv).

(** ** Example servers *)

(** A server that answers the requests for pages [page], [page + 1], ... of
    a category and count with the replies of a script, in order, and every
    other request with 404. *)
Fixpoint scripted (category : string) (count : Z) (page : Z) (script : list reply)
    (req : request) : reply :=
  match script with
  | [] => Replied (Response 404 None)
  | r :: rest =>
      if String.eqb (req_url req) (page_url category count page) then r
      else scripted category count (page + 1) rest req
  end.

(** A 200 response with a parsed body, and the body [{"exceptions": items}]. *)
Definition ok (body : value) : reply := Replied (Response 200 (Some body)).
Definition exceptions (items : list value) : value := VDict [("exceptions", VList items)].

(** The records of the examples. *)
Definition id1 : value := VDict [("id", VInt 1)].
Definition id2 : value := VDict [("id", VInt 2)].
Definition id3 : value := VDict [("id", VInt 3)].
Definition rule (id : Z) (note : string) : value :=
  VDict [("id", VInt id); ("note", VStr note)].

(** Page 1 carries two records and page 2 none: the scenario of the
    specification. *)
Definition two_then_empty : request → reply :=
  scripted "licensing" 1000 1 [ok (exceptions [id1; id2]); ok (exceptions [])].

(** Two full pages, then an empty one. *)
Definition three_then_empty : request → reply :=
  scripted "licensing" 1000 1
    [ok (exceptions [id1; id2]); ok (exceptions [id3]); ok (exceptions [])].

(** Two full pages, then a server error. *)
Definition three_then_error : request → reply :=
  scripted "licensing" 1000 1
    [ok (exceptions [id1; id2]); ok (exceptions [id3]); Replied (Response 500 None)].

(** A full page, then a body that is [null]. *)
Definition one_then_null : request → reply :=
  scripted "licensing" 1000 1 [ok (exceptions [id1]); ok VNone].

(** No record at all. *)
Definition nothing : request → reply :=
  scripted "licensing" 1000 1 [ok (exceptions [])].




(** The three bytes of a lone surrogate, U+D800. *)
Definition lone_surrogate : string := String "237" (String "160" (String "128" "")).


(** A second record that has the keys of the first, with a lone surrogate
    under one of them. *)
Definition surrogate_second : request → reply :=
  scripted "licensing" 1000 1
    [ok (exceptions [rule 1 "a"; rule 2 lone_surrogate; rule 3 "c"]); ok (exceptions [])].

(** ** Further vocabulary *)

(** The lines of text among what was printed, in order. *)
Definition lines (out : list printed) : list string :=
  omap (λ o, match o with Line s => Some s | _ => None end) out.

(** The progress lines of pages [1..n]. *)
Definition progress_lines (n : nat) : list string :=
  (λ i : nat, "paginate: " +:+ str (Z.of_nat i + 1)) <$> seq 0 n.

(** A value that is neither [None] nor a container: a [bool], an [int] or
    a [float]. *)
Definition scalar (v : value) : Prop :=
  match v with
  | VBool _ | VInt _ | VFloat _ => True
  | _ => False
  end.

(** For a list or a string, whether the string [key] is [in] it: one of the
    elements of the list, a substring of the string. *)
Definition sequence_has (key : string) (v : value) : option bool :=
  match v with
  | VList l =>
      Some (existsb (λ x, match x with VStr s => String.eqb key s | _ => false end) l)
  | VStr s => Some (substring_of key s)
  | _ => None
  end.

(** A value that is not an object. *)
Definition not_object (v : value) : Prop :=
  match v with
  | VDict _ => False
  | _ => True
  end.

(** [m] leaves every file alone but those named in [names]. *)
Definition writes_only (names : list string) {A} (m : M A) : Prop :=
  ∀ w name, name ∉ names → files (m w).2 !! name = files w !! name.

(** [m] sends nothing and writes nothing: it only prints. *)
Definition only_prints {A} (m : M A) : Prop :=
  ∀ w, ∃ out, (m w).2 = World (sent w) (stdout w ++ out) (files w).

(** ** Further example servers *)

(** Every page is full: the server never runs out. *)
Definition endless : request → reply := λ _, ok (exceptions [id1]).

(** A full page, then a 200 response whose body is not JSON. *)
Definition one_then_garbage : request → reply :=
  scripted "licensing" 1000 1 [ok (exceptions [id1]); Replied (Response 200 None)].

(** A full page, then no answer at all. *)
Definition one_then_silence : request → reply :=
  scripted "licensing" 1000 1 [ok (exceptions [id1]); Failed].

(** A full page, then the body [7]. *)
Definition one_then_seven : request → reply :=
  scripted "licensing" 1000 1 [ok (exceptions [id1]); ok (VInt 7)].

(** A full page, then the body [["exceptions"]]. *)
Definition one_then_list : request → reply :=
  scripted "licensing" 1000 1 [ok (exceptions [id1]); ok (VList [VStr "exceptions"])].

(** A full page, then a page whose ['exceptions'] is the number [3]. *)
Definition one_then_count : request → reply :=
  scripted "licensing" 1000 1
    [ok (exceptions [id1]); ok (VDict [("exceptions", VInt 3)])].

(** A page whose ['exceptions'] is an object, then an empty page. *)
Definition object_then_empty : request → reply :=
  scripted "licensing" 1000 1
    [ok (VDict [("exceptions", VDict [("a", VInt 1); ("b", VInt 2)])]);
     ok (exceptions [])].

(** Records that are numbers. *)
Definition numbers : request → reply :=
  scripted "licensing" 1000 1 [ok (exceptions [VInt 1; VInt 2]); ok (exceptions [])].



(** A record with a lone surrogate for a key. *)
Definition surrogate_key : request → reply :=
  scripted "licensing" 1000 1
    [ok (exceptions [VDict [(lone_surrogate, VInt 1)]; id2]); ok (exceptions [])].

(** * Proofs *)

(** ** Strings and dicts *)

Lemma append_nil_r (s : string) : s +:+ "" = s.
Proof. induction s as [|c s IH]; [done|]. unfold String.app in *. simpl. by rewrite IH. Qed.

(** Text within ASCII can be encoded, and what the script itself prints is
    within ASCII. *)
Lemma plain_encodable s : plain s = true → encodable s = true.
Proof.
  induction s as [|b s IH]; [done|]. simpl.
  intros [Hb Hs]%andb_prop. rewrite (IH Hs), andb_true_r.
  destruct s as [|b' s]; [done|].
  apply Nat.ltb_lt in Hb. apply negb_true_iff, andb_false_intro1, Nat.eqb_neq. lia.
Qed.

Lemma plain_app s t : plain s = true → plain t = true → plain (s +:+ t) = true.
Proof.
  intros Hs Ht. induction s as [|b s IH]; [done|].
  simpl in Hs. apply andb_prop in Hs as [Hb Hs].
  change (String b s +:+ t) with (String b (s +:+ t)). simpl. by rewrite Hb, IH.
Qed.

Lemma plain_pretty_N_go (x : N) : ∀ s, plain s = true → plain (pretty_N_go x s) = true.
Proof.
  induction (N.lt_wf_0 x) as [x _ IH]. intros s Hs.
  destruct (decide (0 < x)%N) as [Hx|Hx].
  - rewrite pretty_N_go_step by done. apply IH; [by apply N.div_lt|].
    simpl. rewrite Hs, andb_true_r.
    generalize (x `mod` 10)%N. intros n. unfold pretty_N_char.
    by repeat case_match.
  - assert (x = 0%N) as -> by lia. by rewrite pretty_N_go_0.
Qed.

Lemma plain_str (n : Z) : plain (str n) = true.
Proof.
  unfold str, pretty, pretty_Z.
  destruct n as [|p|p]; [done| |apply (plain_app "-"); [done|]];
    unfold pretty, pretty_positive, pretty, pretty_N;
    (case_decide; [done|]); by apply plain_pretty_N_go.
Qed.

Lemma print_line s w :
  plain s = true →
  print (Line s) w = (Returns (), World (sent w) (stdout w ++ [Line s]) (files w)).
Proof. intros Hs. unfold print. simpl. by rewrite (plain_encodable _ Hs). Qed.

Lemma print_ok o w :
  printable o = true →
  print o w = (Returns (), World (sent w) (stdout w ++ [o]) (files w)).
Proof. intros Ho. unfold print. by rewrite Ho. Qed.

Lemma printable_falsy data : truthy data = false → printable (Show data) = true.
Proof. by destruct data as [| | | |[|]| |]. Qed.

Lemma plain_paginate page : plain ("paginate: " +:+ str page) = true.
Proof. apply plain_app; [done | apply plain_str]. Qed.

Lemma plain_failed page status :
  plain ("Failed to fetch page " +:+ str page +:+ ": Status Code " +:+ str status) = true.
Proof. repeat apply plain_app; done || apply plain_str. Qed.

Lemma plain_saved n file :
  plain file = true →
  plain ("Pagination complete. " +:+ str n +:+ file) = true.
Proof. intros Hfile. repeat apply plain_app; done || apply plain_str. Qed.

Lemma encodable_paginate page : encodable ("paginate: " +:+ str page) = true.
Proof. apply plain_encodable, plain_paginate. Qed.

Lemma encodable_failed page status :
  encodable ("Failed to fetch page " +:+ str page +:+ ": Status Code " +:+ str status)
  = true.
Proof. apply plain_encodable, plain_failed. Qed.

Lemma format_base_url category count page :
  format base_url [("category", category); ("page", str page); ("count", str count)]
  = inr (page_url category count page).
Proof.
  unfold page_url. generalize (str page) (str count). intros p c.
  rewrite <- (append_nil_r c) at 2. reflexivity.
Qed.

Lemma dict_get_Some_keys key d v : dict_get key d = Some v → key ∈ dict_keys d.
Proof.
  induction d as [|[k x] d IH]; [done|]. simpl.
  destruct (String.eqb_spec k key) as [->|Hne]; intros H.
  - left.
  - right. by apply IH.
Qed.

Lemma dict_get_None_keys key d : dict_get key d = None → key ∉ dict_keys d.
Proof.
  induction d as [|[k x] d IH]; simpl.
  - intros _. apply not_elem_of_nil.
  - destruct (String.eqb_spec k key) as [->|Hne]; [done|].
    intros H. apply not_elem_of_cons. split; [congruence | by apply IH].
Qed.

(** ** The loop of [fetch_data] *)

Lemma fetch_loop_unfold remote fuel (category count : arg) headers page results :
  fetch_loop remote (S fuel) category count headers page results
  = (url ← lift (format base_url
                    [("category", render category); ("page", str page);
                     ("count", render count)]);
      response ← requests_get remote url headers;
      if (status_code response =? 200)%Z then
        data ← response_json response;
        print (Show data);;
        print (Line ("paginate: " +:+ str page));;
        present ← (if truthy data then py_in "exceptions" data else mret false);
        if present : bool then
          items ← py_getitem data "exceptions";
          if negb (truthy items) then mret results
          else
            results' ← extend results items;
            fetch_loop remote fuel category count headers (page + 1)%Z results'
        else mret results
      else
        print (Line ("Failed to fetch page " +:+ str page +:+ ": Status Code "
                       +:+ str (status_code response)));;
        mret results).
Proof. reflexivity. Qed.

Section Fetch.

Variable remote : request → reply.
Variables (category : string) (count : Z) (headers : list (string * string)).

Let req (page : Z) : request := Request (page_url category count page) headers.

Lemma fetch_loop_full fuel page results items w :
  full_page (remote (req page)) items →
  ∃ out,
    fetch_loop remote (S fuel) category count headers page results w
    = fetch_loop remote fuel category count headers (page + 1) (results ++ items)
        (World (sent w ++ [req page]) (stdout w ++ out) (files w)).
Proof.
  intros (d & Hr & Hget & Hne).
  rewrite fetch_loop_unfold. cbn [render]. rewrite format_base_url.
  unfold mbind, M_bind, lift, mret, M_ret, requests_get. fold (req page). rewrite Hr. simpl.
  rewrite print_line by apply plain_paginate. simpl.
  assert ("exceptions" ∈ dict_keys d) as Hin by (by eapply dict_get_Some_keys).
  destruct d as [|kv d']; [done|].
  unfold mret, M_ret. rewrite (bool_decide_true _ Hin), Hget.
  destruct items as [|x items]; [done|]. simpl.
  eexists. rewrite <- !app_assoc. reflexivity.
Qed.

Lemma fetch_loop_last fuel page results w :
  last_page (remote (req page)) →
  ∃ out,
    fetch_loop remote (S fuel) category count headers page results w
    = (Returns results, World (sent w ++ [req page]) (stdout w ++ out) (files w)).
Proof.
  intros Hlast.
  rewrite fetch_loop_unfold. cbn [render]. rewrite format_base_url.
  unfold mbind, M_bind, lift, mret, M_ret, requests_get. fold (req page).
  destruct Hlast as [(d & -> & Hd)|[(resp & -> & Hst)|(data & -> & Hf)]]; simpl.
  - rewrite print_line by apply plain_paginate. simpl.
    destruct d as [|kv d']; [by eexists; rewrite <- !app_assoc|].
    unfold mret, M_ret.
    destruct Hd as [Hd|Hd].
    + rewrite (bool_decide_true _ (dict_get_Some_keys _ _ _ Hd)), Hd. simpl.
      eexists. by rewrite <- !app_assoc.
    + rewrite (bool_decide_false _ (dict_get_None_keys _ _ Hd)).
      eexists. by rewrite <- !app_assoc.
  - apply Z.eqb_neq in Hst. rewrite Hst. simpl.
    rewrite print_line by apply plain_failed. by eexists.
  - rewrite (print_ok _ _ (printable_falsy _ Hf)). simpl.
    rewrite print_line by apply plain_paginate. simpl.
    rewrite Hf. eexists. by rewrite <- !app_assoc.
Qed.

(** The loop started at page [start + 1] runs through the full pages and
    stops at the page after them. *)
Lemma fetch_loop_pages pages : ∀ fuel (start : nat) results w,
  (∀ (i : nat) items, pages !! i = Some items →
     full_page (remote (req (Z.of_nat (start + i) + 1))) items) →
  last_page (remote (req (Z.of_nat (start + length pages) + 1))) →
  (length pages < fuel)%nat →
  ∃ out,
    fetch_loop remote fuel category count headers (Z.of_nat start + 1) results w
    = (Returns (results ++ concat pages),
       World (sent w ++ ((λ i : nat, req (Z.of_nat i + 1)) <$> seq start (S (length pages))))
             (stdout w ++ out) (files w)).
Proof.
  induction pages as [|items pages IH]; intros fuel start results w Hfull Hlast Hfuel;
    (destruct fuel as [|fuel]; [simpl in Hfuel; lia|]).
  - simpl in Hlast. rewrite Nat.add_0_r in Hlast.
    destruct (fetch_loop_last fuel _ results w Hlast) as [out ->].
    exists out. simpl. by rewrite app_nil_r.
  - destruct (fetch_loop_full fuel (Z.of_nat start + 1) results items w) as [out ->].
    { specialize (Hfull 0%nat items eq_refl). by rewrite Nat.add_0_r in Hfull. }
    replace (Z.of_nat start + 1 + 1)%Z with (Z.of_nat (S start) + 1)%Z by lia.
    edestruct (IH fuel (S start)) as [out' ->].
    + intros i its Hi. replace (S start + i)%nat with (start + S i)%nat by lia.
      by apply Hfull.
    + by replace (S start + length pages)%nat with (start + length (items :: pages))%nat
        by (simpl; lia).
    + simpl in Hfuel. lia.
    + exists (out ++ out'). simpl. by rewrite <- !app_assoc.
Qed.

(** One turn of the loop sends the request for its page, prints, and then
    either ends or goes on with the next page. *)
Lemma fetch_loop_step fuel page results w :
  ∃ out,
    let w1 := World (sent w ++ [req page]) (stdout w ++ out) (files w) in
    (∃ o, fetch_loop remote (S fuel) category count headers page results w = (o, w1))
    ∨ (∃ results',
         fetch_loop remote (S fuel) category count headers page results w
         = fetch_loop remote fuel category count headers (page + 1) results' w1).
Proof.
  rewrite fetch_loop_unfold. cbn [render]. rewrite format_base_url.
  unfold mbind, M_bind, lift, mret, M_ret, requests_get, response_json, print, raise.
  fold (req page).
  cbn [printable]. rewrite encodable_paginate.
  destruct (remote (req page)) as [[st js]|]; simpl; rewrite ?encodable_failed;
    repeat first
      [ by (exists []; left; eexists; rewrite app_nil_r; reflexivity)
      | by (eexists; left; eexists; rewrite <- ?app_assoc; reflexivity)
      | by (eexists; right; eexists; rewrite <- ?app_assoc; reflexivity)
      | progress (match goal with
                  | |- context [match ?x with _ => _ end] =>
                      lazymatch type of x with
                      | prod _ _ => fail
                      | _ => destruct x
                      end
                  end;
                  unfold py_in, py_getitem, extend, mret, M_ret, raise; simpl) ].
Qed.

Lemma fetch_loop_sent fuel : ∀ (start : nat) results w,
  ∃ (n : nat) out,
    (n ≤ fuel)%nat ∧
    (fetch_loop remote fuel category count headers (Z.of_nat start + 1) results w).2
    = World (sent w ++ ((λ i : nat, req (Z.of_nat i + 1)) <$> seq start n))
            (stdout w ++ out) (files w).
Proof.
  induction fuel as [|fuel IH]; intros start results w.
  { exists 0%nat, []. split; [done|]. destruct w. simpl. by rewrite !app_nil_r. }
  destruct (fetch_loop_step fuel (Z.of_nat start + 1) results w)
    as [out [[o ->]|[results' ->]]].
  - exists 1%nat, out. split; [lia|done].
  - replace (Z.of_nat start + 1 + 1)%Z with (Z.of_nat (S start) + 1)%Z by lia.
    edestruct (IH (S start)) as (n & out' & Hn & ->).
    exists (S n), (out ++ out'). split; [lia|]. simpl. by rewrite <- !app_assoc.
Qed.
End Fetch.

(** ** [fetch_data] *)

Section Pagination.

Variable remote : request → reply.
Variables (category : string) (count : Z) (access_token : string).

(** [fetch_data] over full pages followed by a page that ends the loop:
    what it returns, what it has sent, and that it leaves the files alone. *)
Lemma fetch_data_pages (pages : list (list value)) (fuel : nat) (w : world) :
  serves remote category count access_token pages →
  last_page (remote (page_request category count access_token
                       (Z.of_nat (length pages) + 1))) →
  (length pages < fuel)%nat →
  ∃ out,
    fetch_data remote fuel category count access_token w
    = (Returns (concat pages),
       World (sent w ++ page_requests category count access_token (S (length pages)))
             (stdout w ++ out) (files w)).
Proof.
  intros Hserves Hlast Hfuel. unfold fetch_data.
  destruct (fetch_loop_pages remote category count
              [("accept", "application/json");
               ("authorization", "Bearer " +:+ access_token)]
              pages fuel 0 [] w) as [out Hrun]; [|exact Hlast|exact Hfuel|].
  - intros i items Hi. apply (Hserves i items Hi).
  - exists out. exact Hrun.
Qed.

(** C1. When the pages [1..n] each answer 200 with a non-empty array under
    ['exceptions'] and the page after them ends the loop, [fetch_data]
    returns the concatenation of those arrays in page order. *)
Theorem fetch_data_concatenates_pages (pages : list (list value)) (fuel : nat) (w : world) :
  serves remote category count access_token pages →
  last_page (remote (page_request category count access_token
                       (Z.of_nat (length pages) + 1))) →
  (length pages < fuel)%nat →
  (fetch_data remote fuel category count access_token w).1 = Returns (concat pages).
Proof.
  intros Hserves Hlast Hfuel.
  by destruct (fetch_data_pages pages fuel w Hserves Hlast Hfuel) as [out ->].
Qed.

(** C2. When page [k] is the first whose 200 body has an empty
    ['exceptions'] array or no such field (the pages before it being full),
    the loop ends at page [k]: [fetch_data] returns, and the requests it
    has sent are those for pages [1..k] and no other, whatever fuel is
    left. *)
Theorem fetch_data_stops_at_exhausted_page (pages : list (list value)) (fuel : nat)
    (w : world) :
  serves remote category count access_token pages →
  exhausted_page (remote (page_request category count access_token
                            (Z.of_nat (length pages) + 1))) →
  (length pages < fuel)%nat →
  (fetch_data remote fuel category count access_token w).1 = Returns (concat pages)
  ∧ sent (fetch_data remote fuel category count access_token w).2
    = sent w ++ page_requests category count access_token (S (length pages)).
Proof.
  intros Hserves Hlast Hfuel.
  by destruct (fetch_data_pages pages fuel w Hserves (or_introl Hlast) Hfuel) as [out ->].
Qed.

(** C3. When page [k] is the first to answer with a status other than 200
    (the pages before it being full), [fetch_data] does not raise: it
    returns the records of the pages before [k], and the requests it has
    sent are those for pages [1..k] and no other. *)
Theorem fetch_data_partial_on_error_status (pages : list (list value)) (fuel : nat)
    (w : world) :
  serves remote category count access_token pages →
  error_page (remote (page_request category count access_token
                        (Z.of_nat (length pages) + 1))) →
  (length pages < fuel)%nat →
  (fetch_data remote fuel category count access_token w).1 = Returns (concat pages)
  ∧ sent (fetch_data remote fuel category count access_token w).2
    = sent w ++ page_requests category count access_token (S (length pages)).
Proof.
  intros Hserves Hlast Hfuel.
  by destruct (fetch_data_pages pages fuel w Hserves (or_intror (or_introl Hlast)) Hfuel)
    as [out ->].
Qed.

(** C10. When a page answers 200 with a falsy body ([None], [False], [0],
    [0.0], an empty string, list or dict), [fetch_data] returns the records
    accumulated so far and raises nothing: [in] is not evaluated on that
    body, which for [None] or a number would be a [TypeError]. *)
Theorem fetch_data_falsy_body_breaks (pages : list (list value)) (fuel : nat)
    (w : world) :
  serves remote category count access_token pages →
  falsy_page (remote (page_request category count access_token
                        (Z.of_nat (length pages) + 1))) →
  (length pages < fuel)%nat →
  (fetch_data remote fuel category count access_token w).1 = Returns (concat pages)
  ∧ sent (fetch_data remote fuel category count access_token w).2
    = sent w ++ page_requests category count access_token (S (length pages)).
Proof.
  intros Hserves Hlast Hfuel.
  by destruct (fetch_data_pages pages fuel w Hserves (or_intror (or_intror Hlast)) Hfuel)
    as [out ->].
Qed.

(** C8. The requests [fetch_data] sends, in any run and for any server, are
    the requests for pages [1..n] for some [n]: the [i]-th one has the URL
    of the template with the category, the page number [i] and the count
    filled in, and exactly the headers [accept] and [authorization]. *)
Theorem fetch_data_requests (fuel : nat) (w : world) :
  ∃ n : nat,
    (n ≤ fuel)%nat
    ∧ sent (fetch_data remote fuel category count access_token w).2
      = sent w ++ page_requests category count access_token n.
Proof.
  unfold fetch_data.
  destruct (fetch_loop_sent remote category count
              [("accept", "application/json");
               ("authorization", "Bearer " +:+ access_token)] fuel 0 [] w)
    as (n & out & Hn & Hw).
  exists n. split; [done|].
  change (Z.of_nat 0 + 1)%Z with 1%Z in Hw. by rewrite Hw.
Qed.

End Pagination.

(** ** Files and the CSV writer *)


Lemma write_open name c cs w :
  files w !! name = Some cs →
  writable c = true →
  write name c w
  = (Returns (), World (sent w) (stdout w) (<[name := cs ++ [c]]> (files w))).
Proof. intros H Hc. unfold write. by rewrite Hc, H. Qed.

Lemma write_unencodable name c w :
  writable c = false → write name c w = (Raises UnicodeEncodeError, w).
Proof. intros Hc. unfold write. by rewrite Hc. Qed.


Lemma forallb_false {A} (f : A → bool) (l : list A) (x : A) :
  x ∈ l → f x = false → forallb f l = false.
Proof.
  induction 1 as [x l|x y l _ IH]; intros Hx; simpl; [by rewrite Hx|].
  rewrite IH by done. apply andb_false_r.
Qed.








Lemma main_export remote fuel argv w args w0 results w1 :
  parse_args argv w = (Returns args, w0) →
  fetch_data remote fuel (category args) (count args) (access_token args) w0
  = (Returns results, w1) →
  main remote fuel argv w = export (output args) results w1.
Proof.
  intros Hparse Hfetch. unfold main, export, mbind, M_bind.
  by rewrite Hparse, Hfetch.
Qed.

Lemma bind_returns {A B} (m : M A) (f : A → M B) w a w' :
  m w = (Returns a, w') → (m ≫= f) w = f a w'.
Proof. intros H. unfold mbind, M_bind. by rewrite H. Qed.

Lemma bind_raises {A B} (m : M A) (f : A → M B) w e w' :
  m w = (Raises e, w') → (m ≫= f) w = (Raises e, w').
Proof. intros H. unfold mbind, M_bind. by rewrite H. Qed.

Lemma export_csv results :
  export "csv" results
  = (open_w "paginated_results.csv";;
     fieldnames ← (first ← first_item results; keys first);
     writeheader "paginated_results.csv" fieldnames;;
     writerows "paginated_results.csv" fieldnames results;;
     print (Line ("Pagination complete. " +:+ str (len results)
                    +:+ " items converted and saved to 'paginated_results.csv'."))).
Proof. reflexivity. Qed.

(** The JSON branch: the results go to [json.dump] as they are. *)
Lemma export_json results w :
  export "json" results w
  = (Returns (),
     World (sent w)
       (stdout w ++ [Line ("Pagination complete. " +:+ str (len results)
          +:+ " items retrieved and saved to 'paginated_results.json'.")])
       (<["paginated_results.json" := [Json_text (VList results) 2]]> (files w))).
Proof.
  unfold export. simpl.
  erewrite bind_returns; [|reflexivity].
  erewrite bind_returns; [|by apply (write_open _ _ []); [apply lookup_insert_eq|]].
  rewrite print_line by by apply plain_saved.
  cbn [sent stdout files]. by rewrite insert_insert_eq.
Qed.






Lemma export_csv_empty w :
  export "csv" [] w
  = (Raises IndexError,
     World (sent w) (stdout w) (<["paginated_results.csv" := []]> (files w))).
Proof. reflexivity. Qed.

(** ** What the script prints *)

Lemma prints_quiet {A} (Q : A → Prop) (m : M A) :
  (∀ w, stdout (m w).2 = stdout w) →
  (∀ w a, (m w).1 = Returns a → Q a) →
  prints Q m.
Proof.
  intros Hout HQ w. exists []. rewrite app_nil_r.
  split; [apply Hout|]. split; [apply not_elem_of_nil|apply HQ].
Qed.

Lemma prints_ret {A} (Q : A → Prop) (a : A) : Q a → prints Q (mret a).
Proof. intros Ha. apply prints_quiet; [done|]. by intros w a' [= <-]. Qed.

Lemma prints_raise {A} (Q : A → Prop) (e : exn) : prints Q (raise e).
Proof. by apply prints_quiet. Qed.

Lemma prints_print (o : printed) : o ≠ invalid_line → prints (λ _, True) (print o).
Proof.
  intros Ho w. unfold print. destruct (printable o).
  - exists [o]. split; [done|]. split; [|done].
    intros Hin%list_elem_of_singleton. by apply Ho.
  - exists []. rewrite app_nil_r. split; [done|]. split; [apply not_elem_of_nil|done].
Qed.

Lemma prints_write name c : prints (λ _, True) (write name c).
Proof. apply prints_quiet; [|done]. intros w. unfold write. by destruct (writable c). Qed.

Lemma prints_bind {A B} (Q : A → Prop) (R : B → Prop) (m : M A) (f : A → M B) :
  prints Q m → (∀ a, Q a → prints R (f a)) → prints R (m ≫= f).
Proof.
  intros Hm Hf w. destruct (Hm w) as (out & Hout & Hbad & HQ).
  unfold mbind, M_bind. destruct (m w) as [[a|e|] w']; simpl in *.
  - destruct (Hf a (HQ a eq_refl) w') as (out' & Hout' & Hbad' & HR).
    exists (out ++ out'). rewrite Hout', Hout, app_assoc.
    split; [done|]. split; [|done].
    intros [?|?]%elem_of_app; done.
  - by exists out.
  - by exists out.
Qed.

Lemma prints_weaken {A} (Q R : A → Prop) (m : M A) :
  (∀ a, Q a → R a) → prints Q m → prints R m.
Proof.
  intros HQR Hm w. destruct (Hm w) as (out & Hout & Hbad & HQ).
  exists out. eauto.
Qed.

Lemma line_neq_invalid (c : ascii) (s t : string) :
  c ≠ "I"%char → Line (String c s +:+ t) ≠ invalid_line.
Proof. intros Hc [= H _]. done. Qed.

Lemma prints_lift {A} (r : exn + A) : prints (λ _, True) (lift r).
Proof. by destruct r; apply prints_quiet. Qed.

Lemma prints_requests_get remote url headers :
  prints (λ _, True) (requests_get remote url headers).
Proof.
  apply prints_quiet; [|done]. intros w. unfold requests_get.
  by destruct (remote _).
Qed.

Lemma prints_response_json r : prints (λ _, True) (response_json r).
Proof. unfold response_json. by destruct (json r); apply prints_quiet. Qed.

Lemma prints_py_in key data : prints (λ _, True) (py_in key data).
Proof. by destruct data; apply prints_quiet. Qed.

Lemma prints_py_getitem data key : prints (λ _, True) (py_getitem data key).
Proof.
  destruct data; try by apply prints_quiet.
  simpl. by destruct (dict_get key d); apply prints_quiet.
Qed.

Lemma prints_extend results items : prints (λ _, True) (extend results items).
Proof. by destruct items; apply prints_quiet. Qed.

Lemma prints_fetch_loop remote fuel : ∀ category count headers page results,
  prints (λ _, True) (fetch_loop remote fuel category count headers page results).
Proof.
  induction fuel as [|fuel IH]; intros category count headers page results.
  { by apply prints_quiet. }
  rewrite fetch_loop_unfold.
  eapply prints_bind; [apply prints_lift|intros url _].
  eapply prints_bind; [apply prints_requests_get|intros response _].
  destruct (status_code response =? 200)%Z.
  - eapply prints_bind; [apply prints_response_json|intros data _].
    eapply prints_bind; [by apply prints_print|intros _ _].
    eapply prints_bind; [by apply prints_print, line_neq_invalid|intros _ _].
    eapply (prints_bind (λ _, True)).
    { destruct (truthy data); [apply prints_py_in|by apply prints_ret]. }
    intros [] _; [|by apply prints_ret].
    eapply prints_bind; [apply prints_py_getitem|intros items _].
    destruct (negb (truthy items)); [by apply prints_ret|].
    eapply prints_bind; [apply prints_extend|intros results' _]. apply IH.
  - eapply prints_bind; [by apply prints_print, line_neq_invalid|intros _ _].
    by apply prints_ret.
Qed.

(** ** The argument parser *)

Lemma exact_elem s o : exact s = Some o → o ∈ optionals.
Proof.
  unfold exact. destruct (list_find _ _) as [[i o']|] eqn:Hfind; [|done].
  intros [= <-]. apply list_find_Some in Hfind as (Hi & _).
  by eapply list_elem_of_lookup_2.
Qed.

Lemma abbreviated_elem prefix o : Some o ∈ abbreviated prefix → o ∈ optionals.
Proof.
  unfold abbreviated. intros [Hin|Hin]%elem_of_app.
  - destruct (String.prefix prefix "--help"); [|by apply elem_of_nil in Hin].
    by apply list_elem_of_singleton in Hin.
  - apply list_elem_of_fmap in Hin as (o' & [= <-] & Hin).
    by apply list_elem_of_filter in Hin as [_ Hin].
Qed.

Lemma classify_opt arg o explicit : classify arg = Opt o explicit → o ∈ optionals.
Proof.
  unfold classify. intros H.
  repeat case_match; simplify_eq; eauto using exact_elem.
  all: eapply abbreviated_elem; match goal with H : abbreviated _ = _ |- _ => rewrite H end.
  all: by left.
Qed.

Lemma exact_option_string s o : exact s = Some o → option_string o = s.
Proof.
  unfold exact. destruct (list_find _ _) as [[i o']|] eqn:Hfind; [|done].
  intros [= <-]. by apply list_find_Some in Hfind as (_ & Hs & _).
Qed.

Lemma abbreviated_prefix prefix o :
  Some o ∈ abbreviated prefix → String.prefix prefix (option_string o) = true.
Proof.
  unfold abbreviated. intros [Hin|Hin]%elem_of_app.
  - destruct (String.prefix prefix "--help"); [|by apply elem_of_nil in Hin].
    by apply list_elem_of_singleton in Hin.
  - apply list_elem_of_fmap in Hin as (o' & [= <-] & Hin).
    by apply list_elem_of_filter in Hin as [Hpre _].
Qed.

Lemma prefix_refl s : String.prefix s s = true.
Proof. induction s as [|c s IH]; [done|]. simpl. by destruct (ascii_dec c c). Qed.

(** An optional with an explicit value comes from a string [name=value],
    [name] being its option string or an abbreviation. *)
Lemma classify_explicit arg o text :
  classify arg = Opt o (Some text) →
  ∃ name, split_eq arg = Some (name, text)
          ∧ String.prefix name (option_string o) = true.
Proof.
  unfold classify. intros H.
  repeat case_match; simplify_eq; eexists; (split; [reflexivity|]).
  - match goal with H : exact _ = Some _ |- _ => apply exact_option_string in H as -> end.
    apply prefix_refl.
  - apply abbreviated_prefix.
    match goal with H : abbreviated _ = _ |- _ => rewrite H end. by left.
Qed.

Lemma store_settled all o text explicit st st' :
  o ∈ optionals → store o text explicit st = Some st' →
  (explicit = true → text = "--" → option_string o = "--output" → dashed all) →
  settled all (ns_output (parsed st)) → settled all (ns_output (parsed st')).
Proof.
  unfold optionals, store. rewrite !elem_of_cons, elem_of_nil.
  intros [->|[->|[->|[]]]] Hstore Hdashed Hst; simpl in *.
  - destruct (explicit && String.eqb text "--"); by simplify_eq.
  - destruct (explicit && String.eqb text "--"); [by simplify_eq|].
    destruct (int text); simpl in Hstore; by simplify_eq.
  - destruct (explicit && String.eqb text "--") eqn:Hexp.
    + apply andb_prop in Hexp as [-> ->%String.eqb_eq]. simplify_eq. simpl.
      right. auto.
    + case_bool_decide as Hin; [|done]. simpl in Hstore. simplify_eq. simpl.
      rewrite !elem_of_cons, elem_of_nil in Hin. left. unfold chosen.
      destruct Hin as [->|[->|[]]]; auto.
Qed.

Lemma positional_output arg st :
  ns_output (parsed (positional arg st)) = ns_output (parsed st).
Proof. unfold positional. by destruct (ns_access_token (parsed st)). Qed.

Lemma dashes_output rest st :
  ns_output (parsed (dashes rest st)) = ns_output (parsed st).
Proof.
  unfold dashes.
  by destruct (ns_access_token (parsed st)), (just_token st), rest.
Qed.

Lemma prints_parse_known_args all (n : nat) : ∀ argv st,
  (length argv ≤ n)%nat →
  argv ⊆ all →
  settled all (ns_output (parsed st)) →
  prints (λ st', settled all (ns_output (parsed st'))) (parse_known_args argv st).
Proof.
  induction n as [|n IH]; intros [|arg rest] st Hlen Hsub Hst; simpl in *;
    try (by apply prints_ret); try lia.
  assert (arg ∈ all) as Harg_in by (apply Hsub; left).
  assert (rest ⊆ all) as Hrest by (intros x Hx; apply Hsub; by right).
  destruct (classify arg) as [| |short explicit|o [text|]| |] eqn:Harg.
  - apply IH; [lia|done|by rewrite positional_output].
  - apply prints_ret. by rewrite dashes_output.
  - destruct (asks_help short explicit); [|apply prints_raise].
    eapply prints_bind; [by apply prints_print|intros _ _; apply prints_raise].
  - destruct (store o text true st) as [st'|] eqn:Hstore; [|apply prints_raise].
    apply IH; [lia|done|].
    eapply store_settled; [by eapply classify_opt|done| |done].
    intros _ -> Ho. apply classify_explicit in Harg as (name & Hsplit & Hpre).
    rewrite Ho in Hpre. by exists arg, name.
  - destruct rest as [|text rest']; [apply prints_raise|].
    destruct (classify text); try apply prints_raise.
    destruct (store o text false st) as [st'|] eqn:Hstore; [|apply prints_raise].
    apply IH; [simpl in Hlen; lia|intros x Hx; apply Hrest; by right|].
    eapply store_settled; [by eapply classify_opt|done|done|done].
  - apply prints_raise.
  - by apply IH; [lia|done|].
Qed.

Lemma prints_parse_args argv :
  prints (λ args, settled argv (output args)) (parse_args argv).
Proof.
  unfold parse_args. destruct (ambiguous argv); [apply prints_raise|].
  eapply prints_bind; [by eapply (prints_parse_known_args argv); [done|done|left; left]|].
  intros st Hst. simpl.
  destruct (ns_access_token (parsed st)); [|apply prints_raise].
  destruct (extras st); [by apply prints_ret|apply prints_raise].
Qed.

Lemma prints_dict_to_list fieldnames rowdict :
  prints (λ _, True) (dict_to_list fieldnames rowdict).
Proof.
  destruct rowdict; try by apply prints_quiet.
  simpl. by case_bool_decide; apply prints_quiet.
Qed.

Lemma prints_writerows name fieldnames rowdicts :
  prints (λ _, True) (writerows name fieldnames rowdicts).
Proof.
  induction rowdicts as [|rowdict rest IH]; simpl; [by apply prints_ret|].
  eapply prints_bind; [apply prints_dict_to_list|intros cells _].
  eapply (prints_bind (λ _, True)); [apply prints_write|by intros _ _].
Qed.

(** With one of the two formats chosen, the export step never prints the
    line of the last branch. *)
Lemma prints_export output results :
  chosen output → prints (λ _, True) (export output results).
Proof.
  unfold export. intros [-> | ->]; simpl.
  - eapply (prints_bind (λ _, True)); [by apply prints_quiet|intros _ _].
    eapply (prints_bind (λ _, True)); [apply prints_write|intros _ _].
    by apply prints_print, line_neq_invalid.
  - eapply (prints_bind (λ _, True)); [by apply prints_quiet|intros _ _].
    eapply (prints_bind (λ _, True)).
    { destruct results as [|[] ?]; by apply prints_quiet. }
    intros fieldnames _.
    eapply (prints_bind (λ _, True)); [apply prints_write|intros _ _].
    eapply prints_bind; [apply prints_writerows|intros _ _].
    by apply prints_print, line_neq_invalid.
Qed.

Lemma main_unfold remote fuel argv :
  main remote fuel argv
  = (args ← parse_args argv;
     results ← fetch_data remote fuel (category args) (count args) (access_token args);
     export (output args) results).
Proof. reflexivity. Qed.

(** ** [main]: the export step *)

Section Exporter.

Variable remote : request → reply.

(** C4, as the code has it. When the format is [csv] and [fetch_data] has
    returned no record, [main] raises [IndexError] at [results[0]]; by then
    [paginated_results.csv] has been opened for writing, so the file is
    there and empty: no header, no row. *)
Theorem csv_export_of_nothing (fuel : nat) (argv : list string) (w w0 w1 : world)
    (args : arguments) :
  parse_args argv w = (Returns args, w0) →
  output args = "csv" →
  fetch_data remote fuel (category args) (count args) (access_token args) w0
  = (Returns [], w1) →
  main remote fuel argv w
  = (Raises IndexError,
     World (sent w1) (stdout w1) (<["paginated_results.csv" := []]> (files w1))).
Proof.
  intros Hparse Hcsv Hfetch.
  rewrite (main_export _ _ _ _ _ _ _ _ Hparse Hfetch), Hcsv.
  apply export_csv_empty.
Qed.



(** C9, as the code has it. In a run whose arguments [parse_args] accepts,
    [args.output] is ['json'] or ['csv'], or it is the empty list, which
    happens only when the command line gives [--output], or an abbreviation
    of it, the explicit value [--] (as in [--output=--]): [argparse] drops
    that value and stores the empty list without checking it against the
    choices.  [main] never prints the line of its last branch,
    ["Invalid output format. Choose 'json' or 'csv'."], unless [args.output]
    is the empty list; then, once [fetch_data] has returned, that line is
    all [main] does. *)
Theorem invalid_format_only_for_dashes (fuel : nat) (argv : list string) (w w0 : world)
    (args : arguments) :
  parse_args argv w = (Returns args, w0) →
  (output args = "json" ∨ output args = "csv"
   ∨ (output args = Empty_list ∧ dashed argv))
  ∧ (output args ≠ Empty_list →
     ∃ out,
       stdout (main remote fuel argv w).2 = stdout w ++ out
       ∧ Line "Invalid output format. Choose 'json' or 'csv'." ∉ out)
  ∧ (output args = Empty_list →
     ∀ results w1,
       fetch_data remote fuel (category args) (count args) (access_token args) w0
       = (Returns results, w1) →
       main remote fuel argv w
       = (Returns (),
          World (sent w1)
            (stdout w1 ++ [Line "Invalid output format. Choose 'json' or 'csv'."])
            (files w1))).
Proof.
  intros Hparse.
  destruct (prints_parse_args argv w) as (out0 & Hout0 & Hbad0 & Hargs).
  rewrite Hparse in Hout0, Hargs. simpl in Hout0.
  specialize (Hargs args eq_refl).
  split; [|split].
  - destruct Hargs as [[?|?]|?]; auto.
  - intros Hne.
    assert (chosen (output args)) as Hchosen by (destruct Hargs as [?|[? _]]; done).
    rewrite main_unfold. erewrite bind_returns; [|exact Hparse].
    edestruct (prints_bind (λ _, True) (λ _, True)
                 (fetch_data remote fuel (category args) (count args) (access_token args))
                 (export (output args))) as (out1 & Hout1 & Hbad1 & _).
    { apply prints_fetch_loop. }
    { intros results _. by apply prints_export. }
    exists (out0 ++ out1). rewrite Hout1, Hout0, app_assoc. split; [done|].
    intros [?|?]%elem_of_app; done.
  - intros Hempty results w1 Hfetch.
    rewrite (main_export _ _ _ _ _ _ _ _ Hparse Hfetch), Hempty. reflexivity.
Qed.

End Exporter.

(** ** The theorems at work on the example servers *)

(** The hypothesis [serves] for a script given page by page. *)
Ltac serve_pages :=
  let i := fresh "i" in
  let items := fresh "items" in
  let Hi := fresh "Hi" in
  intros i items Hi;
  repeat (destruct i as [|i];
          [simplify_eq/=; eexists; split; [reflexivity|split; [reflexivity|done]]|]);
  done.

Lemma fetch_data_concatenates_pages_witness :
  (fetch_data three_then_empty 5 "licensing" 1000 "token" (initial ∅)).1
  = Returns [id1; id2; id3].
Proof.
  apply (fetch_data_concatenates_pages three_then_empty "licensing" 1000 "token"
           [[id1; id2]; [id3]] 5 (initial ∅)).
  - serve_pages.
  - left. eexists. split; [reflexivity|by left].
  - simpl. lia.
Defined.

Lemma fetch_data_stops_at_exhausted_page_witness :
  (fetch_data two_then_empty 9 "licensing" 1000 "token" (initial ∅)).1
  = Returns [id1; id2]
  ∧ sent (fetch_data two_then_empty 9 "licensing" 1000 "token" (initial ∅)).2
    = page_requests "licensing" 1000 "token" 2.
Proof.
  apply (fetch_data_stops_at_exhausted_page two_then_empty "licensing" 1000 "token"
           [[id1; id2]] 9 (initial ∅)).
  - serve_pages.
  - eexists. split; [reflexivity|by left].
  - simpl. lia.
Defined.

Lemma fetch_data_partial_on_error_status_witness :
  (fetch_data three_then_error 9 "licensing" 1000 "token" (initial ∅)).1
  = Returns [id1; id2; id3]
  ∧ sent (fetch_data three_then_error 9 "licensing" 1000 "token" (initial ∅)).2
    = page_requests "licensing" 1000 "token" 3.
Proof.
  apply (fetch_data_partial_on_error_status three_then_error "licensing" 1000 "token"
           [[id1; id2]; [id3]] 9 (initial ∅)).
  - serve_pages.
  - eexists. split; [reflexivity|done].
  - simpl. lia.
Defined.

Lemma fetch_data_falsy_body_breaks_witness :
  (fetch_data one_then_null 9 "licensing" 1000 "token" (initial ∅)).1
  = Returns [id1]
  ∧ sent (fetch_data one_then_null 9 "licensing" 1000 "token" (initial ∅)).2
    = page_requests "licensing" 1000 "token" 2.
Proof.
  apply (fetch_data_falsy_body_breaks one_then_null "licensing" 1000 "token"
           [[id1]] 9 (initial ∅)).
  - serve_pages.
  - eexists. split; reflexivity.
  - simpl. lia.
Defined.

Lemma csv_export_of_nothing_witness :
  (main nothing 1 ["token"; "--output"; "csv"] (initial ∅)).1 = Raises IndexError.
Proof.
  by erewrite (csv_export_of_nothing nothing 1 ["token"; "--output"; "csv"] (initial ∅)).
Defined.

(** C4 as stated does not hold: the export of no record in CSV raises, and
    the file, absent before, is there afterwards, empty. *)
Lemma csv_export_of_nothing_leaves_file :
  (main nothing 1 ["token"; "--output"; "csv"] (initial ∅)).1 = Raises IndexError
  ∧ files (initial ∅) !! "paginated_results.csv" = None
  ∧ files (main nothing 1 ["token"; "--output"; "csv"] (initial ∅)).2
      !! "paginated_results.csv" = Some [].
Proof. by vm_compute. Qed.





Lemma invalid_format_only_for_dashes_witness :
  main nothing 1 ["token"; "--o=--"] (initial ∅)
  = (Returns (),
     World (page_requests "licensing" 1000 "token" 1)
           [Show (exceptions []); Line "paginate: 1";
            Line "Invalid output format. Choose 'json' or 'csv'."]
           ∅).
Proof.
  edestruct (invalid_format_only_for_dashes nothing 1 ["token"; "--o=--"] (initial ∅))
    as (_ & _ & Hempty); [reflexivity|].
  by rewrite (Hempty eq_refl _ _ eq_refl).
Defined.

(** C9 as stated does not hold: [parse_args] accepts [--output=--], with
    the empty list for [args.output], and [main] prints the line of its
    last branch. *)
Lemma invalid_format_reached :
  parse_args ["token"; "--output=--"] (initial ∅)
  = (Returns (Args "token" "licensing" 1000 Empty_list), initial ∅)
  ∧ main nothing 1 ["token"; "--output=--"] (initial ∅)
    = (Returns (),
       World (page_requests "licensing" 1000 "token" 1)
             [Show (exceptions []); Line "paginate: 1";
              Line "Invalid output format. Choose 'json' or 'csv'."]
             ∅).
Proof. by vm_compute. Qed.

(** * Further properties *)

(** ** The loop, page by page *)

Lemma lines_app out1 out2 : lines (out1 ++ out2) = lines out1 ++ lines out2.
Proof. unfold lines. apply omap_app. Qed.

Section Turns.

Variable remote : request → reply.
Variables (category : string) (count : Z) (headers : list (string * string)).

Let req (page : Z) : request := Request (page_url category count page) headers.

(** What one turn does with the reply to its request, once the request is
    sent. *)
Lemma fetch_loop_turn fuel page results w :
  fetch_loop remote (S fuel) category count headers page results w
  = let w1 := World (sent w ++ [req page]) (stdout w) (files w) in
    match remote (req page) with
    | Failed => (Raises RequestException, w1)
    | Replied response =>
        (if (status_code response =? 200)%Z then
           data ← response_json response;
           print (Show data);;
           print (Line ("paginate: " +:+ str page));;
           present ← (if truthy data then py_in "exceptions" data else mret false);
           if present : bool then
             items ← py_getitem data "exceptions";
             if negb (truthy items) then mret results
             else
               results' ← extend results items;
               fetch_loop remote fuel category count headers (page + 1)%Z results'
           else mret results
         else
           print (Line ("Failed to fetch page " +:+ str page +:+ ": Status Code "
                          +:+ str (status_code response)));;
           mret results) w1
    end.
Proof.
  rewrite fetch_loop_unfold. cbn [render]. rewrite format_base_url.
  unfold mbind at 1 2, M_bind at 1 2, lift, mret at 1, M_ret at 1, requests_get.
  fold (req page). by destruct (remote (req page)).
Qed.

(** A full page: its body and the progress line are printed, its items
    appended, and the loop goes on with the next page. *)
Lemma fetch_loop_next fuel page results items w :
  full_page (remote (req page)) items →
  ∃ body,
    fetch_loop remote (S fuel) category count headers page results w
    = fetch_loop remote fuel category count headers (page + 1) (results ++ items)
        (World (sent w ++ [req page])
               (stdout w ++ [Show body; Line ("paginate: " +:+ str page)]) (files w)).
Proof.
  intros (d & Hr & Hget & Hne). exists (VDict d).
  rewrite fetch_loop_turn, Hr. simpl.
  assert ("exceptions" ∈ dict_keys d) as Hin by (by eapply dict_get_Some_keys).
  destruct d as [|kv d']; [done|].
  unfold response_json. simpl.
  erewrite bind_returns; [|reflexivity].
  erewrite bind_returns; [|reflexivity].
  erewrite bind_returns; [|by apply print_line, plain_paginate].
  unfold mbind, M_bind, mret, M_ret. simpl.
  unfold mret, M_ret. rewrite (bool_decide_true _ Hin).
  simpl in Hget. rewrite Hget.
  destruct items as [|x items]; [done|]. simpl.
  by rewrite <- !app_assoc.
Qed.

(** The loop over full pages: as many turns as pages, then the loop stands
    at the page after them. *)
Lemma fetch_loop_through pages : ∀ fuel (start : nat) results w,
  (∀ (i : nat) items, pages !! i = Some items →
     full_page (remote (req (Z.of_nat (start + i) + 1))) items) →
  ∃ out,
    lines out
    = ((λ i : nat, "paginate: " +:+ str (Z.of_nat i + 1)) <$> seq start (length pages))
    ∧ fetch_loop remote (length pages + fuel) category count headers
        (Z.of_nat start + 1) results w
      = fetch_loop remote fuel category count headers
          (Z.of_nat (start + length pages) + 1) (results ++ concat pages)
          (World (sent w ++ ((λ i : nat, req (Z.of_nat i + 1)) <$> seq start (length pages)))
                 (stdout w ++ out) (files w)).
Proof.
  induction pages as [|items pages IH]; intros fuel start results w Hfull.
  - exists []. split; [done|]. simpl. rewrite Nat.add_0_r, !app_nil_r. by destruct w.
  - destruct (fetch_loop_next (length pages + fuel) (Z.of_nat start + 1) results items w)
      as [body Hturn].
    { specialize (Hfull 0%nat items eq_refl). by rewrite Nat.add_0_r in Hfull. }
    destruct (IH fuel (S start) (results ++ items)
                (World (sent w ++ [req (Z.of_nat start + 1)])
                   (stdout w ++ [Show body; Line ("paginate: " +:+ str (Z.of_nat start + 1))])
                   (files w))) as (out & Hlines & Hrun).
    { intros i its Hi. replace (S start + i)%nat with (start + S i)%nat by lia.
      by apply Hfull. }
    exists ([Show body; Line ("paginate: " +:+ str (Z.of_nat start + 1))] ++ out).
    split; [by rewrite lines_app, Hlines|].
    change (length (items :: pages) + fuel)%nat with (S (length pages + fuel)).
    rewrite Hturn.
    replace (Z.of_nat start + 1 + 1)%Z with (Z.of_nat (S start) + 1)%Z by lia.
    rewrite Hrun. simpl.
    replace (start + S (length pages))%nat with (S (start + length pages)) by lia.
    by rewrite <- !app_assoc.
Qed.

End Turns.

(** ** [fetch_data]: the page that ends a run *)

Section Endings.

Variable remote : request → reply.
Variables (category : string) (count : Z) (access_token : string).

(** [fetch_data] over full pages and then a page on which every turn ends
    the same way. *)
Lemma fetch_data_then (pages : list (list value)) (fuel : nat) (w : world)
    (o : list value → outcome (list value)) (final : list printed) :
  serves remote category count access_token pages →
  (length pages < fuel)%nat →
  (∀ f results w',
     fetch_loop remote (S f) category count
       [("accept", "application/json"); ("authorization", "Bearer " +:+ access_token)]
       (Z.of_nat (length pages) + 1) results w'
     = (o results,
        World (sent w' ++ [page_request category count access_token
                             (Z.of_nat (length pages) + 1)])
              (stdout w' ++ final) (files w'))) →
  ∃ out,
    lines out = progress_lines (length pages)
    ∧ fetch_data remote fuel category count access_token w
      = (o (concat pages),
         World (sent w ++ page_requests category count access_token (S (length pages)))
               (stdout w ++ out ++ final) (files w)).
Proof.
  intros Hserves Hfuel Hlast. unfold fetch_data.
  destruct (fetch_loop_through remote category count
              [("accept", "application/json");
               ("authorization", "Bearer " +:+ access_token)]
              pages (fuel - length pages) 0 [] w) as (out & Hlines & Hrun).
  { intros i items Hi. apply (Hserves i items Hi). }
  exists out. split; [exact Hlines|].
  replace fuel with (length pages + (fuel - length pages))%nat at 1 by lia.
  change (Z.of_nat 0 + 1)%Z with 1%Z in Hrun. rewrite Hrun.
  destruct (fuel - length pages)%nat as [|f] eqn:Hf; [lia|].
  rewrite Nat.add_0_l, Hlast. cbn [sent stdout files].
  unfold page_requests. rewrite seq_S, fmap_app. simpl.
  by rewrite <- !app_assoc.
Qed.

(** The turn at a page, for each way the page can end the run. *)

Lemma turn_on_garbage f headers page results w :
  remote (Request (page_url category count page) headers) = Replied (Response 200 None) →
  fetch_loop remote (S f) category count headers page results w
  = (Raises JSONDecodeError,
     World (sent w ++ [Request (page_url category count page) headers])
           (stdout w ++ []) (files w)).
Proof. intros Hr. rewrite fetch_loop_turn, Hr. simpl. by rewrite app_nil_r. Qed.

Lemma turn_on_silence f headers page results w :
  remote (Request (page_url category count page) headers) = Failed →
  fetch_loop remote (S f) category count headers page results w
  = (Raises RequestException,
     World (sent w ++ [Request (page_url category count page) headers])
           (stdout w ++ []) (files w)).
Proof. intros Hr. rewrite fetch_loop_turn, Hr. simpl. by rewrite app_nil_r. Qed.

Lemma turn_on_error f headers page results w response :
  remote (Request (page_url category count page) headers) = Replied response →
  status_code response ≠ 200%Z →
  fetch_loop remote (S f) category count headers page results w
  = (Returns results,
     World (sent w ++ [Request (page_url category count page) headers])
           (stdout w ++ [Line ("Failed to fetch page " +:+ str page +:+ ": Status Code "
                                 +:+ str (status_code response))])
           (files w)).
Proof.
  intros Hr Hst%Z.eqb_neq. rewrite fetch_loop_turn, Hr. simpl. rewrite Hst.
  erewrite bind_returns; [|by apply print_line, plain_failed]. done.
Qed.

Lemma turn_on_body f headers page results w data (o : outcome (list value)) :
  remote (Request (page_url category count page) headers)
  = Replied (Response 200 (Some data)) →
  printable (Show data) = true →
  (∀ w',
     (present ← (if truthy data then py_in "exceptions" data else mret false);
      if present : bool then
        items ← py_getitem data "exceptions";
        if negb (truthy items) then mret results
        else
          results' ← extend results items;
          fetch_loop remote f category count headers (page + 1)%Z results'
      else mret results) w' = (o, w')) →
  fetch_loop remote (S f) category count headers page results w
  = (o,
     World (sent w ++ [Request (page_url category count page) headers])
           (stdout w ++ [Show data; Line ("paginate: " +:+ str page)]) (files w)).
Proof.
  intros Hr Hdata Hrest. rewrite fetch_loop_turn, Hr. simpl.
  unfold response_json. simpl.
  erewrite bind_returns; [|reflexivity].
  erewrite bind_returns; [|by apply print_ok].
  erewrite bind_returns; [|by apply print_line, plain_paginate].
  rewrite Hrest. cbn [sent stdout files]. by rewrite <- !app_assoc.
Qed.


End Endings.

(** ** [fetch_data]: failures, odd bodies and what is printed *)

Section Failures.

Variable remote : request → reply.
Variables (category : string) (count : Z) (access_token : string).

Lemma fetch_loop_endless (fuel : nat) : ∀ (start : nat) results w,
  (∀ i : nat, ∃ items,
     full_page (remote (page_request category count access_token (Z.of_nat i + 1))) items) →
  (fetch_loop remote fuel category count
     [("accept", "application/json"); ("authorization", "Bearer " +:+ access_token)]
     (Z.of_nat start + 1) results w).1 = Running
  ∧ sent (fetch_loop remote fuel category count
            [("accept", "application/json"); ("authorization", "Bearer " +:+ access_token)]
            (Z.of_nat start + 1) results w).2
    = sent w ++ ((λ i : nat, page_request category count access_token (Z.of_nat i + 1))
                   <$> seq start fuel).
Proof.
  induction fuel as [|fuel IH]; intros start results w Hfull.
  { simpl. by rewrite app_nil_r. }
  destruct (Hfull start) as [items Hitems].
  destruct (fetch_loop_next remote category count _ fuel _ results items w Hitems)
    as [body ->].
  replace (Z.of_nat start + 1 + 1)%Z with (Z.of_nat (S start) + 1)%Z by lia.
  destruct (IH (S start) (results ++ items)
              (World (sent w ++ [page_request category count access_token
                                    (Z.of_nat start + 1)])
                 (stdout w ++ [Show body; Line ("paginate: " +:+ str (Z.of_nat start + 1))])
                 (files w)) Hfull) as [H1 H2].
  split; [exact H1|]. etransitivity; [exact H2|].
  simpl. by rewrite <- app_assoc.
Qed.

(** X1. A server that answers every page with a full page keeps the loop
    going for ever: whatever the fuel, [fetch_data] has not returned, and it
    has sent one request for each turn, pages [1], [2], ... in order. *)
Theorem fetch_data_endless (fuel : nat) (w : world) :
  (∀ i : nat, ∃ items,
     full_page (remote (page_request category count access_token (Z.of_nat i + 1))) items) →
  (fetch_data remote fuel category count access_token w).1 = Running
  ∧ sent (fetch_data remote fuel category count access_token w).2
    = sent w ++ page_requests category count access_token fuel.
Proof. intros Hfull. by apply (fetch_loop_endless fuel 0). Qed.

(** X2. When the page after the full pages answers 200 with a body that is
    not JSON, [fetch_data] raises [JSONDecodeError]: the records of the
    pages before are not returned, and no later page is requested. *)
Theorem fetch_data_malformed_body (pages : list (list value)) (fuel : nat) (w : world) :
  serves remote category count access_token pages →
  remote (page_request category count access_token (Z.of_nat (length pages) + 1))
  = Replied (Response 200 None) →
  (length pages < fuel)%nat →
  (fetch_data remote fuel category count access_token w).1 = Raises JSONDecodeError
  ∧ sent (fetch_data remote fuel category count access_token w).2
    = sent w ++ page_requests category count access_token (S (length pages)).
Proof.
  intros Hserves Hr Hfuel.
  destruct (fetch_data_then remote category count access_token pages fuel w
              (λ _, Raises JSONDecodeError) []) as (out & _ & ->); [done..| |done].
  intros f results w'. by apply turn_on_garbage.
Qed.

(** X3. When the request for the page after the full pages fails in
    transport, [fetch_data] raises the exception of [requests]; no later
    page is requested. *)
Theorem fetch_data_transport_failure (pages : list (list value)) (fuel : nat)
    (w : world) :
  serves remote category count access_token pages →
  remote (page_request category count access_token (Z.of_nat (length pages) + 1))
  = Failed →
  (length pages < fuel)%nat →
  (fetch_data remote fuel category count access_token w).1 = Raises RequestException
  ∧ sent (fetch_data remote fuel category count access_token w).2
    = sent w ++ page_requests category count access_token (S (length pages)).
Proof.
  intros Hserves Hr Hfuel.
  destruct (fetch_data_then remote category count access_token pages fuel w
              (λ _, Raises RequestException) []) as (out & _ & ->); [done..| |done].
  intros f results w'. by apply turn_on_silence.
Qed.

(** X4. A 200 page whose body is [True] or a number other than zero makes
    [fetch_data] raise [TypeError]: the body is truthy, and ['exceptions' in]
    is evaluated on a value that is no container. *)
Theorem fetch_data_scalar_body (pages : list (list value)) (fuel : nat) (w : world)
    (data : value) :
  serves remote category count access_token pages →
  remote (page_request category count access_token (Z.of_nat (length pages) + 1))
  = Replied (Response 200 (Some data)) →
  scalar data → truthy data = true →
  (length pages < fuel)%nat →
  (fetch_data remote fuel category count access_token w).1 = Raises TypeError
  ∧ sent (fetch_data remote fuel category count access_token w).2
    = sent w ++ page_requests category count access_token (S (length pages)).
Proof.
  intros Hserves Hr Hscalar Htruthy Hfuel.
  destruct (fetch_data_then remote category count access_token pages fuel w
              (λ _, Raises TypeError) [Show data; Line ("paginate: " +:+
                 str (Z.of_nat (length pages) + 1))]) as (out & _ & ->); [done..| |done].
  intros f results w'. apply turn_on_body; [done|by destruct data|]. intros w''.
  rewrite Htruthy. by destruct data.
Qed.

(** X5. A 200 page whose body is a non-empty list, or a non-empty string
    that standard output can encode (one without a lone surrogate), so that
    [print(data)] goes through: when ['exceptions'] is [in] it (an element
    of the list, a substring of the string) [fetch_data] raises [TypeError]
    at [data['exceptions']]; otherwise it returns the records accumulated so
    far. *)
Theorem fetch_data_sequence_body (pages : list (list value)) (fuel : nat) (w : world)
    (data : value) (present : bool) :
  serves remote category count access_token pages →
  remote (page_request category count access_token (Z.of_nat (length pages) + 1))
  = Replied (Response 200 (Some data)) →
  sequence_has "exceptions" data = Some present → truthy data = true →
  printable (Show data) = true →
  (length pages < fuel)%nat →
  (fetch_data remote fuel category count access_token w).1
  = (if present then Raises TypeError else Returns (concat pages))
  ∧ sent (fetch_data remote fuel category count access_token w).2
    = sent w ++ page_requests category count access_token (S (length pages)).
Proof.
  intros Hserves Hr Hhas Htruthy Hshown Hfuel.
  destruct (fetch_data_then remote category count access_token pages fuel w
              (λ results, if present then Raises TypeError else Returns results)
              [Show data; Line ("paginate: " +:+ str (Z.of_nat (length pages) + 1))])
    as (out & _ & ->); [done..| |done].
  intros f results w'. apply turn_on_body; [done|done|]. intros w''.
  rewrite Htruthy.
  destruct data; simplify_eq/=; unfold mbind, M_bind, mret, M_ret; simpl;
    by match goal with |- context [if ?b then _ else _] => destruct b end.
Qed.

(** X6. A 200 page whose ['exceptions'] field holds [True] or a number
    other than zero makes [fetch_data] raise [TypeError], at
    [results.extend(items)]. *)
Theorem fetch_data_scalar_field (pages : list (list value)) (fuel : nat) (w : world)
    (d : list (string * value)) (items : value) :
  serves remote category count access_token pages →
  remote (page_request category count access_token (Z.of_nat (length pages) + 1))
  = Replied (Response 200 (Some (VDict d))) →
  dict_get "exceptions" d = Some items →
  scalar items → truthy items = true →
  (length pages < fuel)%nat →
  (fetch_data remote fuel category count access_token w).1 = Raises TypeError
  ∧ sent (fetch_data remote fuel category count access_token w).2
    = sent w ++ page_requests category count access_token (S (length pages)).
Proof.
  intros Hserves Hr Hget Hscalar Htruthy Hfuel.
  destruct (fetch_data_then remote category count access_token pages fuel w
              (λ _, Raises TypeError)
              [Show (VDict d); Line ("paginate: " +:+ str (Z.of_nat (length pages) + 1))])
    as (out & _ & ->); [done..| |done].
  intros f results w'. apply turn_on_body; [done|done|]. intros w''.
  assert ("exceptions" ∈ dict_keys d) as Hin by (by eapply dict_get_Some_keys).
  destruct d as [|kv d']; [done|]. cbn [truthy py_in].
  erewrite bind_returns; [|reflexivity]. rewrite (bool_decide_true _ Hin).
  unfold py_getitem. rewrite Hget.
  erewrite bind_returns; [|reflexivity]. rewrite Htruthy. simpl.
  by destruct items.
Qed.


End Failures.

(** ** [fetch_data]: more of what it does and never does *)

Lemma app_inj_r (s1 s2 r : string) : s1 +:+ r = s2 +:+ r → s1 = s2.
Proof.
  assert (∀ s t, String.length (s +:+ t) = (String.length s + String.length t)%nat) as Hlen.
  { intros s t. induction s as [|c s IH]; [done|]. unfold String.app in *. simpl.
    by rewrite IH. }
  revert s2. induction s1 as [|c s1 IH]; intros [|c' s2] Heq; [done|..].
  - apply (f_equal String.length) in Heq. rewrite !Hlen in Heq. simpl in Heq. lia.
  - apply (f_equal String.length) in Heq. rewrite !Hlen in Heq. simpl in Heq. lia.
  - unfold String.app in *. simpl in Heq. injection Heq as -> Heq.
    f_equal. by apply IH.
Qed.

Lemma page_url_inj (category : string) (count p q : Z) :
  page_url category count p = page_url category count q → p = q.
Proof.
  unfold page_url. intros Heq.
  do 3 apply (inj (String.app _)) in Heq.
  apply app_inj_r in Heq. by apply (inj pretty) in Heq.
Qed.

Lemma page_requests_NoDup (category : string) (count : Z) (access_token : string)
    (n : nat) :
  NoDup (page_requests category count access_token n).
Proof.
  unfold page_requests. apply NoDup_fmap_2; [|apply NoDup_seq].
  intros i j Heq.
  assert (page_url category count (Z.of_nat i + 1)
          = page_url category count (Z.of_nat j + 1)) as Hurl
    by exact (f_equal req_url Heq).
  apply page_url_inj in Hurl. lia.
Qed.

Lemma writes_only_bind {A B} names (m : M A) (f : A → M B) :
  writes_only names m → (∀ a, writes_only names (f a)) → writes_only names (m ≫= f).
Proof.
  intros Hm Hf w name Hname. specialize (Hm w name Hname).
  unfold mbind, M_bind. destruct (m w) as [[a|e|] w']; simpl in *; [|done..].
  by rewrite (Hf a w' name Hname).
Qed.

Lemma writes_only_same {A} names (m : M A) :
  (∀ w, files (m w).2 = files w) → writes_only names m.
Proof. intros Hm w name _. by rewrite Hm. Qed.

Lemma writes_only_print names (o : printed) : writes_only names (print o).
Proof. apply writes_only_same. intros w. unfold print. by destruct (printable o). Qed.

(** The loop writes no file, whatever its arguments. *)
Lemma writes_only_fetch_loop names remote fuel : ∀ category count headers page results,
  writes_only names (fetch_loop remote fuel category count headers page results).
Proof.
  induction fuel as [|fuel IH]; intros category count headers page results.
  { by apply writes_only_same. }
  rewrite fetch_loop_unfold.
  apply writes_only_bind; [apply writes_only_same; intros w; by destruct (format _ _)|].
  intros url. apply writes_only_bind.
  { apply writes_only_same. intros w. unfold requests_get. by destruct (remote _). }
  intros response. destruct (status_code response =? 200)%Z.
  - apply writes_only_bind.
    { apply writes_only_same. intros w. unfold response_json. by destruct (json response). }
    intros data.
    apply writes_only_bind; [apply writes_only_print|intros _].
    apply writes_only_bind; [apply writes_only_print|intros _].
    apply writes_only_bind.
    { apply writes_only_same. intros w. by destruct (truthy data), data. }
    intros [|]; [|by apply writes_only_same].
    apply writes_only_bind.
    { apply writes_only_same. intros w. destruct data; try done.
      simpl. by destruct (dict_get _ _). }
    intros items. destruct (negb (truthy items)); [by apply writes_only_same|].
    apply writes_only_bind; [|intros results'; apply IH].
    apply writes_only_same. intros w. by destruct items.
  - apply writes_only_bind; [apply writes_only_print|intros _].
    by apply writes_only_same.
Qed.

Lemma fetch_data_files remote (category count : arg) (access_token : string)
    (fuel : nat) (w : world) :
  files (fetch_data remote fuel category count access_token w).2 = files w.
Proof.
  apply map_eq. intros name.
  apply (writes_only_fetch_loop [] remote fuel). apply not_elem_of_nil.
Qed.

Section Conduct.

Variable remote : request → reply.
Variables (category : string) (count : Z) (access_token : string).

(** A page whose ['exceptions'] is a non-empty object: its keys are
    appended, as strings, and the loop goes on. *)
Lemma turn_on_object f headers page results w d kv :
  remote (Request (page_url category count page) headers)
  = Replied (Response 200 (Some (VDict d))) →
  dict_get "exceptions" d = Some (VDict kv) → kv ≠ [] →
  fetch_loop remote (S f) category count headers page results w
  = fetch_loop remote f category count headers (page + 1)
      (results ++ (VStr <$> dict_keys kv))
      (World (sent w ++ [Request (page_url category count page) headers])
             (stdout w ++ [Show (VDict d); Line ("paginate: " +:+ str page)]) (files w)).
Proof.
  intros Hr Hget Hkv. rewrite fetch_loop_turn, Hr. simpl.
  assert ("exceptions" ∈ dict_keys d) as Hin by (by eapply dict_get_Some_keys).
  destruct d as [|kv0 d']; [done|].
  unfold response_json. simpl.
  erewrite bind_returns; [|reflexivity].
  erewrite bind_returns; [|reflexivity].
  erewrite bind_returns; [|by apply print_line, plain_paginate].
  unfold mbind, M_bind, mret, M_ret. simpl.
  unfold mret, M_ret. rewrite (bool_decide_true _ Hin).
  simpl in Hget. rewrite Hget.
  destruct kv as [|x kv]; [done|]. simpl.
  by rewrite <- !app_assoc.
Qed.

(** X7. The field is not checked to be an array. When, after the full
    pages, a page holds a non-empty object under ['exceptions'] and the page
    after it ends the loop, [fetch_data] returns the records of the full
    pages followed by the keys of that object, as strings. *)
Theorem fetch_data_object_field (pages : list (list value)) (fuel : nat) (w : world)
    (d kv : list (string * value)) :
  serves remote category count access_token pages →
  remote (page_request category count access_token (Z.of_nat (length pages) + 1))
  = Replied (Response 200 (Some (VDict d))) →
  dict_get "exceptions" d = Some (VDict kv) → kv ≠ [] →
  last_page (remote (page_request category count access_token
                       (Z.of_nat (length pages) + 2))) →
  (length pages + 1 < fuel)%nat →
  (fetch_data remote fuel category count access_token w).1
  = Returns (concat pages ++ (VStr <$> dict_keys kv))
  ∧ sent (fetch_data remote fuel category count access_token w).2
    = sent w ++ page_requests category count access_token (length pages + 2).
Proof.
  intros Hserves Hr Hget Hkv Hlast Hfuel. unfold fetch_data.
  destruct (fetch_loop_through remote category count
              [("accept", "application/json");
               ("authorization", "Bearer " +:+ access_token)]
              pages (fuel - length pages) 0 [] w) as (out & _ & Hrun).
  { intros i items Hi. apply (Hserves i items Hi). }
  replace fuel with (length pages + (fuel - length pages))%nat at 1 2 by lia.
  change (Z.of_nat 0 + 1)%Z with 1%Z in Hrun. rewrite Hrun.
  destruct (fuel - length pages)%nat as [|[|f]] eqn:Hf; [lia..|].
  rewrite Nat.add_0_l.
  rewrite (turn_on_object _ _ _ _ _ d kv Hr Hget Hkv).
  replace (Z.of_nat (length pages) + 1 + 1)%Z with (Z.of_nat (length pages) + 2)%Z by lia.
  edestruct (fetch_loop_last remote category count) as [out' ->]; [exact Hlast|].
  cbn [fst snd sent stdout files]. split; [done|].
  unfold page_requests.
  replace (length pages + 2)%nat with (S (S (length pages))) by lia.
  rewrite !seq_S, !fmap_app. simpl. rewrite <- !app_assoc. simpl.
  unfold page_request.
  by replace (Z.of_nat (S (length pages)) + 1)%Z with (Z.of_nat (length pages) + 2)%Z
    by lia.
Qed.

(** X8. [fetch_data] writes no file: for every server and every fuel the
    files are after the run what they were before, whether it has returned,
    raised or is still running. *)
Theorem fetch_data_keeps_files (fuel : nat) (w : world) :
  files (fetch_data remote fuel category count access_token w).2 = files w.
Proof. apply fetch_data_files. Qed.

(** X9. [fetch_data] never sends the same request twice: the pages have
    URLs of their own. *)
Theorem fetch_data_never_repeats_a_request (fuel : nat) (w : world) :
  sent w = [] →
  NoDup (sent (fetch_data remote fuel category count access_token w).2).
Proof.
  intros Hw0. unfold fetch_data.
  destruct (fetch_loop_sent remote category count
              [("accept", "application/json");
               ("authorization", "Bearer " +:+ access_token)] fuel 0 [] w)
    as (n & out & _ & Hw).
  change (Z.of_nat 0 + 1)%Z with 1%Z in Hw. rewrite Hw, Hw0. simpl.
  apply page_requests_NoDup.
Qed.

(** X10. Progress is printed page by page. When a page with an empty
    array or no ['exceptions'] ends the run after n full pages, the lines
    [fetch_data] has printed are ["paginate: 1"] to ["paginate: n+1"], in
    order: the page that ends the run is announced too. *)
Theorem fetch_data_progress (pages : list (list value)) (fuel : nat) (w : world) :
  serves remote category count access_token pages →
  exhausted_page (remote (page_request category count access_token
                            (Z.of_nat (length pages) + 1))) →
  (length pages < fuel)%nat →
  lines (stdout (fetch_data remote fuel category count access_token w).2)
  = lines (stdout w) ++ progress_lines (S (length pages)).
Proof.
  intros Hserves (d & Hr & Hd) Hfuel.
  destruct (fetch_data_then remote category count access_token pages fuel w
              (λ results, Returns results)
              [Show (VDict d); Line ("paginate: " +:+ str (Z.of_nat (length pages) + 1))])
    as (out & Hlines & ->); [done..| |].
  - intros f results w'. apply turn_on_body; [done|done|]. intros w''.
    destruct d as [|kv d']; [done|]. cbn [truthy py_in].
    erewrite bind_returns; [|reflexivity].
    destruct Hd as [Hd|Hd].
    + rewrite (bool_decide_true _ (dict_get_Some_keys _ _ _ Hd)).
      unfold py_getitem. rewrite Hd. erewrite bind_returns; [|reflexivity]. done.
    + by rewrite (bool_decide_false _ (dict_get_None_keys _ _ Hd)).
  - cbn [snd stdout]. rewrite !lines_app, Hlines.
    unfold progress_lines. by rewrite seq_S, fmap_app.
Qed.

(** X11. When a status other than 200 ends the run after n full pages,
    the lines printed are ["paginate: 1"] to ["paginate: n"] and then
    ["Failed to fetch page n+1: Status Code s"], with the status received. *)
Theorem fetch_data_failure_line (pages : list (list value)) (fuel : nat) (w : world)
    (response : response) :
  serves remote category count access_token pages →
  remote (page_request category count access_token (Z.of_nat (length pages) + 1))
  = Replied response →
  status_code response ≠ 200%Z →
  (length pages < fuel)%nat →
  lines (stdout (fetch_data remote fuel category count access_token w).2)
  = lines (stdout w) ++ progress_lines (length pages)
    ++ ["Failed to fetch page " +:+ str (Z.of_nat (length pages) + 1)
          +:+ ": Status Code " +:+ str (status_code response)].
Proof.
  intros Hserves Hr Hst Hfuel.
  destruct (fetch_data_then remote category count access_token pages fuel w
              (λ results, Returns results)
              [Line ("Failed to fetch page " +:+ str (Z.of_nat (length pages) + 1)
                       +:+ ": Status Code " +:+ str (status_code response))])
    as (out & Hlines & ->); [done..| |].
  - intros f results w'. by apply turn_on_error.
  - cbn [snd stdout]. by rewrite !lines_app, Hlines.
Qed.

End Conduct.

(** ** [main]: arguments, files and failures *)

Lemma only_prints_ret {A} (a : A) : only_prints (mret a).
Proof. intros w. exists []. rewrite app_nil_r. by destruct w. Qed.

Lemma only_prints_raise {A} (e : exn) : only_prints (raise (A:=A) e).
Proof. intros w. exists []. rewrite app_nil_r. by destruct w. Qed.

Lemma only_prints_print (o : printed) : only_prints (print o).
Proof.
  intros w. unfold print. destruct (printable o); [by exists [o]|].
  exists []. rewrite app_nil_r. by destruct w.
Qed.

Lemma only_prints_bind {A B} (m : M A) (f : A → M B) :
  only_prints m → (∀ a, only_prints (f a)) → only_prints (m ≫= f).
Proof.
  intros Hm Hf w. destruct (Hm w) as [out Hout].
  unfold mbind, M_bind. destruct (m w) as [[a|e|] w']; simpl in Hout; subst w'.
  - destruct (Hf a (World (sent w) (stdout w ++ out) (files w))) as [out' ->].
    exists (out ++ out'). simpl. by rewrite app_assoc.
  - by exists out.
  - by exists out.
Qed.

Lemma only_prints_parse_known_args (n : nat) : ∀ argv st,
  (length argv ≤ n)%nat → only_prints (parse_known_args argv st).
Proof.
  induction n as [|n IH]; intros [|arg rest] st Hlen; simpl in *;
    try (by apply only_prints_ret); try lia.
  destruct (classify arg) as [| |short explicit|o [text|]| |].
  - apply IH. lia.
  - apply only_prints_ret.
  - destruct (asks_help short explicit); [|apply only_prints_raise].
    apply only_prints_bind; [apply only_prints_print|intros _; apply only_prints_raise].
  - destruct (store o text true st); [apply IH; lia|apply only_prints_raise].
  - destruct rest as [|text rest']; [apply only_prints_raise|].
    destruct (classify text); try apply only_prints_raise.
    destruct (store o text false st); [|apply only_prints_raise].
    apply IH. simpl in Hlen. lia.
  - apply only_prints_raise.
  - apply IH. lia.
Qed.

Lemma only_prints_parse_args argv : only_prints (parse_args argv).
Proof.
  unfold parse_args. destruct (ambiguous argv); [apply only_prints_raise|].
  apply only_prints_bind; [by eapply only_prints_parse_known_args|].
  intros st. destruct (ns_access_token (parsed st)); [|apply only_prints_raise].
  destruct (extras st); [apply only_prints_ret|apply only_prints_raise].
Qed.

Lemma writes_only_open_w names name : name ∈ names → writes_only names (open_w name).
Proof.
  intros Hin w other Hother. simpl. apply lookup_insert_ne. by intros ->.
Qed.

Lemma writes_only_write names name c : name ∈ names → writes_only names (write name c).
Proof.
  intros Hin w other Hother. unfold write. destruct (writable c); [|done].
  simpl. apply lookup_insert_ne. by intros ->.
Qed.

Lemma writes_only_dict_to_list names fieldnames rowdict :
  writes_only names (dict_to_list fieldnames rowdict).
Proof.
  apply writes_only_same. intros w.
  destruct rowdict; try done. simpl. by case_bool_decide.
Qed.

Lemma writes_only_writerows names name fieldnames rowdicts :
  name ∈ names → writes_only names (writerows name fieldnames rowdicts).
Proof.
  intros Hin. induction rowdicts as [|rowdict rest IH]; simpl.
  - by apply writes_only_same.
  - apply writes_only_bind; [apply writes_only_dict_to_list|intros cells].
    apply writes_only_bind; [by apply writes_only_write|by intros _].
Qed.

Lemma writes_only_export output results :
  writes_only ["paginated_results.json"; "paginated_results.csv"] (export output results).
Proof.
  unfold export. destruct (is_text "json" output); [|destruct (is_text "csv" output)].
  - apply writes_only_bind; [apply writes_only_open_w; set_solver|intros _].
    apply writes_only_bind; [apply writes_only_write; set_solver|intros _].
    apply writes_only_print.
  - apply writes_only_bind; [apply writes_only_open_w; set_solver|intros _].
    apply writes_only_bind.
    { apply writes_only_same. intros w. by destruct results as [|[] ?]. }
    intros fieldnames.
    apply writes_only_bind; [apply writes_only_write; set_solver|intros _].
    apply writes_only_bind; [apply writes_only_writerows; set_solver|intros _].
    apply writes_only_print.
  - apply writes_only_print.
Qed.


Lemma classify_output :
  classify "--output"
  = Opt (Optional "--output"
           (λ text, if bool_decide (text ∈ ["json"; "csv"]) then Some (Text text) else None)
           (λ v ns, Namespace (ns_access_token ns) (ns_category ns) (ns_count ns) v))
        None.
Proof. reflexivity. Qed.

Section Runs.

Variable remote : request → reply.

(** X12. In JSON mode the export cannot fail: whatever [fetch_data] has
    returned, no record included, goes to [json.dump] unchanged, with
    [indent=2], into [paginated_results.json], and the line printed reports
    the number of records. *)
Theorem json_export_writes_results (fuel : nat) (argv : list string) (w w0 w1 : world)
    (args : arguments) (results : list value) :
  parse_args argv w = (Returns args, w0) →
  output args = "json" →
  fetch_data remote fuel (category args) (count args) (access_token args) w0
  = (Returns results, w1) →
  main remote fuel argv w
  = (Returns (),
     World (sent w1)
       (stdout w1 ++ [Line ("Pagination complete. " +:+ str (len results)
          +:+ " items retrieved and saved to 'paginated_results.json'.")])
       (<["paginated_results.json" := [Json_text (VList results) 2]]> (files w1))).
Proof.
  intros Hparse Hjson Hfetch.
  rewrite (main_export _ _ _ _ _ _ _ _ Hparse Hfetch), Hjson.
  apply export_json.
Qed.

(** X13. When [parse_args] rejects the command line, or prints the help,
    [main] exits there with the same status: no request is sent and no file
    is written. *)
Theorem main_rejected_arguments (fuel : nat) (argv : list string) (w : world) (e : exn) :
  (parse_args argv w).1 = Raises e →
  (main remote fuel argv w).1 = Raises e
  ∧ sent (main remote fuel argv w).2 = sent w
  ∧ files (main remote fuel argv w).2 = files w.
Proof.
  intros Hparse. destruct (only_prints_parse_args argv w) as [out Hout].
  destruct (parse_args argv w) as [o w'] eqn:Hrun. simpl in *. subst o w'.
  rewrite main_unfold. erewrite bind_raises; [|exact Hrun]. done.
Qed.

(** X14. [main] writes to [paginated_results.json] and
    [paginated_results.csv] only: in every run, whatever the command line
    and the server, every other file is left as it was. *)
Theorem main_touches_only_its_files (fuel : nat) (argv : list string) (w : world)
    (name : string) :
  name ≠ "paginated_results.json" →
  name ≠ "paginated_results.csv" →
  files (main remote fuel argv w).2 !! name = files w !! name.
Proof.
  intros Hjson Hcsv.
  apply (writes_only_bind ["paginated_results.json"; "paginated_results.csv"]).
  - apply writes_only_same. intros w'.
    destruct (only_prints_parse_args argv w') as [out ->]. done.
  - intros args. apply writes_only_bind.
    + apply writes_only_same. intros w'. apply fetch_data_files.
    + intros results. apply writes_only_export.
  - rewrite !elem_of_cons, elem_of_nil. tauto.
Qed.

(** X15. With the token as only argument, [main] asks for the category
    ['licensing'], 1000 records a page, and exports as JSON: when the
    server has n full pages for these and then a page that ends the loop,
    [main] returns, has sent the requests for pages 1 to n+1, and
    [paginated_results.json] holds the records of all the pages in order. *)
Theorem main_exports_all_pages (fuel : nat) (token : string) (w : world)
    (pages : list (list value)) :
  classify token = Plain →
  serves remote "licensing" 1000 token pages →
  last_page (remote (page_request "licensing" 1000 token (Z.of_nat (length pages) + 1))) →
  (length pages < fuel)%nat →
  (main remote fuel [token] w).1 = Returns ()
  ∧ sent (main remote fuel [token] w).2
    = sent w ++ page_requests "licensing" 1000 token (S (length pages))
  ∧ files (main remote fuel [token] w).2
    = <["paginated_results.json" := [Json_text (VList (concat pages)) 2]]> (files w).
Proof.
  intros Htoken Hserves Hlast Hfuel.
  assert (parse_args [token] w = (Returns (Args token "licensing" 1000 "json"), w))
    as Hparse.
  { unfold parse_args. simpl. rewrite Htoken. simpl.
    erewrite bind_returns; [|reflexivity]. done. }
  destruct (fetch_data_pages remote "licensing" 1000 token pages fuel w Hserves Hlast Hfuel)
    as [out Hfetch].
  rewrite (main_export _ _ _ _ _ _ _ _ Hparse Hfetch). cbn [output].
  by rewrite export_json.
Qed.

(** X16. In CSV mode, when the first record is not an object (a number, a
    string, a list, [None]) the header cannot be derived: [main] raises
    [AttributeError] at [results[0].keys()], and [paginated_results.csv] is
    left behind empty. *)
Theorem csv_export_first_not_object (fuel : nat) (argv : list string) (w w0 w1 : world)
    (args : arguments) (v : value) (rest : list value) :
  parse_args argv w = (Returns args, w0) →
  output args = "csv" →
  fetch_data remote fuel (category args) (count args) (access_token args) w0
  = (Returns (v :: rest), w1) →
  not_object v →
  main remote fuel argv w
  = (Raises AttributeError,
     World (sent w1) (stdout w1) (<["paginated_results.csv" := []]> (files w1))).
Proof.
  intros Hparse Hcsv Hfetch Hv.
  rewrite (main_export _ _ _ _ _ _ _ _ Hparse Hfetch), Hcsv, export_csv.
  erewrite bind_returns; [|reflexivity].
  erewrite bind_raises; [done|]. by destruct v.
Qed.


(** X21. In CSV mode, when a key of the first record holds a lone
    surrogate, the header cannot be encoded: [main] raises
    [UnicodeEncodeError] at [writeheader()], and [paginated_results.csv] is
    left behind empty. *)
Theorem csv_export_unencodable_header (fuel : nat) (argv : list string) (w w0 w1 : world)
    (args : arguments) (d0 : list (string * value)) (rest : list value) (key : string) :
  parse_args argv w = (Returns args, w0) →
  output args = "csv" →
  fetch_data remote fuel (category args) (count args) (access_token args) w0
  = (Returns (VDict d0 :: rest), w1) →
  key ∈ dict_keys d0 →
  encodable key = false →
  main remote fuel argv w
  = (Raises UnicodeEncodeError,
     World (sent w1) (stdout w1) (<["paginated_results.csv" := []]> (files w1))).
Proof.
  intros Hparse Hcsv Hfetch Hkey Hbad.
  rewrite (main_export _ _ _ _ _ _ _ _ Hparse Hfetch), Hcsv, export_csv.
  erewrite bind_returns; [|reflexivity].
  erewrite bind_returns; [|reflexivity].
  erewrite bind_raises; [done|].
  apply write_unencodable. simpl.
  apply (forallb_false _ _ (VStr key)); [|done].
  apply list_elem_of_fmap. by exists key.
Qed.

(** X18. A value other than ['json'] and ['csv'] given to [--output] as
    the next command-line string, after the token, ends the run at once
    with exit status 2: nothing is printed on standard output, no request
    is sent, no file is written. *)
Theorem main_rejects_other_output (fuel : nat) (token value : string) (w : world) :
  classify token = Plain →
  value ∉ ["json"; "csv"] →
  main remote fuel [token; "--output"; value] w = (Raises (SystemExit 2), w).
Proof.
  intros Htoken Hvalue. rewrite main_unfold.
  erewrite bind_raises; [done|].
  unfold parse_args. cbn [ambiguous]. rewrite Htoken, classify_output. cbv iota.
  destruct (classify value) eqn:Hv; try done.
  all: cbn [parse_known_args]; rewrite Htoken; cbn [parse_known_args];
    rewrite classify_output; cbv iota; rewrite Hv; try done.
  unfold store. cbn [andb convert]. by rewrite (bool_decide_false _ Hvalue).
Qed.

(** X19. When [fetch_data] raises (a transport failure, a body that is not
    JSON, a [TypeError]), [main] raises the same exception and nothing is
    exported: the records fetched so far are dropped and no file is
    written. *)
Theorem main_propagates_fetch_failure (fuel : nat) (argv : list string) (w w0 : world)
    (args : arguments) (e : exn) :
  parse_args argv w = (Returns args, w0) →
  (fetch_data remote fuel (category args) (count args) (access_token args) w0).1
  = Raises e →
  (main remote fuel argv w).1 = Raises e
  ∧ files (main remote fuel argv w).2 = files w.
Proof.
  intros Hparse Hfetch.
  destruct (only_prints_parse_args argv w) as [out Hout].
  rewrite Hparse in Hout. simpl in Hout. subst w0.
  pose proof (fetch_data_files remote (category args) (count args)
                (access_token args) fuel (World (sent w) (stdout w ++ out) (files w)))
    as Hfiles.
  destruct (fetch_data _ _ _ _ _ _) as [o w1] eqn:Hrun. simpl in *. subst o.
  rewrite main_unfold.
  erewrite bind_returns; [|exact Hparse].
  erewrite bind_raises; [|exact Hrun]. done.
Qed.

End Runs.

(** ** The further theorems at work on the example servers *)

Lemma fetch_data_endless_witness :
  (fetch_data endless 3 "licensing" 1000 "token" (initial ∅)).1 = Running
  ∧ sent (fetch_data endless 3 "licensing" 1000 "token" (initial ∅)).2
    = page_requests "licensing" 1000 "token" 3.
Proof.
  apply (fetch_data_endless endless "licensing" 1000 "token" 3 (initial ∅)).
  intros i. exists [id1]. eexists. split; [reflexivity|]. by split.
Defined.

Lemma fetch_data_malformed_body_witness :
  (fetch_data one_then_garbage 9 "licensing" 1000 "token" (initial ∅)).1
  = Raises JSONDecodeError
  ∧ sent (fetch_data one_then_garbage 9 "licensing" 1000 "token" (initial ∅)).2
    = page_requests "licensing" 1000 "token" 2.
Proof.
  apply (fetch_data_malformed_body one_then_garbage "licensing" 1000 "token"
           [[id1]] 9 (initial ∅)).
  - serve_pages.
  - reflexivity.
  - simpl. lia.
Defined.

Lemma fetch_data_transport_failure_witness :
  (fetch_data one_then_silence 9 "licensing" 1000 "token" (initial ∅)).1
  = Raises RequestException
  ∧ sent (fetch_data one_then_silence 9 "licensing" 1000 "token" (initial ∅)).2
    = page_requests "licensing" 1000 "token" 2.
Proof.
  apply (fetch_data_transport_failure one_then_silence "licensing" 1000 "token"
           [[id1]] 9 (initial ∅)).
  - serve_pages.
  - reflexivity.
  - simpl. lia.
Defined.

Lemma fetch_data_scalar_body_witness :
  (fetch_data one_then_seven 9 "licensing" 1000 "token" (initial ∅)).1
  = Raises TypeError
  ∧ sent (fetch_data one_then_seven 9 "licensing" 1000 "token" (initial ∅)).2
    = page_requests "licensing" 1000 "token" 2.
Proof.
  apply (fetch_data_scalar_body one_then_seven "licensing" 1000 "token"
           [[id1]] 9 (initial ∅) (VInt 7)).
  - serve_pages.
  - reflexivity.
  - exact I.
  - reflexivity.
  - simpl. lia.
Defined.

Lemma fetch_data_sequence_body_witness :
  (fetch_data one_then_list 9 "licensing" 1000 "token" (initial ∅)).1
  = Raises TypeError
  ∧ sent (fetch_data one_then_list 9 "licensing" 1000 "token" (initial ∅)).2
    = page_requests "licensing" 1000 "token" 2.
Proof.
  apply (fetch_data_sequence_body one_then_list "licensing" 1000 "token"
           [[id1]] 9 (initial ∅) (VList [VStr "exceptions"]) true).
  - serve_pages.
  - reflexivity.
  - reflexivity.
  - reflexivity.
  - reflexivity.
  - simpl. lia.
Defined.

Lemma fetch_data_scalar_field_witness :
  (fetch_data one_then_count 9 "licensing" 1000 "token" (initial ∅)).1
  = Raises TypeError
  ∧ sent (fetch_data one_then_count 9 "licensing" 1000 "token" (initial ∅)).2
    = page_requests "licensing" 1000 "token" 2.
Proof.
  apply (fetch_data_scalar_field one_then_count "licensing" 1000 "token"
           [[id1]] 9 (initial ∅) [("exceptions", VInt 3)] (VInt 3)).
  - serve_pages.
  - reflexivity.
  - reflexivity.
  - exact I.
  - reflexivity.
  - simpl. lia.
Defined.

Lemma fetch_data_object_field_witness :
  (fetch_data object_then_empty 9 "licensing" 1000 "token" (initial ∅)).1
  = Returns [VStr "a"; VStr "b"]
  ∧ sent (fetch_data object_then_empty 9 "licensing" 1000 "token" (initial ∅)).2
    = page_requests "licensing" 1000 "token" 2.
Proof.
  apply (fetch_data_object_field object_then_empty "licensing" 1000 "token"
           [] 9 (initial ∅)
           [("exceptions", VDict [("a", VInt 1); ("b", VInt 2)])]
           [("a", VInt 1); ("b", VInt 2)]).
  - serve_pages.
  - reflexivity.
  - reflexivity.
  - done.
  - left. eexists. split; [reflexivity|by left].
  - simpl. lia.
Defined.

Lemma fetch_data_never_repeats_a_request_witness :
  NoDup (sent (fetch_data two_then_empty 9 "licensing" 1000 "token" (initial ∅)).2).
Proof.
  apply (fetch_data_never_repeats_a_request two_then_empty "licensing" 1000 "token" 9
           (initial ∅)).
  reflexivity.
Defined.

Lemma fetch_data_progress_witness :
  lines (stdout (fetch_data two_then_empty 9 "licensing" 1000 "token" (initial ∅)).2)
  = ["paginate: 1"; "paginate: 2"].
Proof.
  apply (fetch_data_progress two_then_empty "licensing" 1000 "token" [[id1; id2]] 9
           (initial ∅)).
  - serve_pages.
  - eexists. split; [reflexivity|by left].
  - simpl. lia.
Defined.

Lemma fetch_data_failure_line_witness :
  lines (stdout (fetch_data three_then_error 9 "licensing" 1000 "token" (initial ∅)).2)
  = ["paginate: 1"; "paginate: 2"; "Failed to fetch page 3: Status Code 500"].
Proof.
  apply (fetch_data_failure_line three_then_error "licensing" 1000 "token"
           [[id1; id2]; [id3]] 9 (initial ∅) (Response 500 None)).
  - serve_pages.
  - reflexivity.
  - done.
  - simpl. lia.
Defined.

Lemma json_export_writes_results_witness :
  files (main two_then_empty 2 ["token"] (initial ∅)).2 !! "paginated_results.json"
  = Some [Json_text (VList [id1; id2]) 2].
Proof.
  rewrite (json_export_writes_results two_then_empty 2 ["token"] (initial ∅) (initial ∅)
             (fetch_data two_then_empty 2 "licensing" 1000 "token" (initial ∅)).2
             (Args "token" "licensing" 1000 "json") [id1; id2]);
    [|by vm_compute|reflexivity|by vm_compute].
  apply lookup_insert_eq.
Defined.

Lemma main_rejected_arguments_witness :
  (main two_then_empty 2 ["token"; "--count"; "many"] (initial ∅)).1
  = Raises (SystemExit 2)
  ∧ sent (main two_then_empty 2 ["token"; "--count"; "many"] (initial ∅)).2 = []
  ∧ files (main two_then_empty 2 ["token"; "--count"; "many"] (initial ∅)).2 = ∅.
Proof.
  apply (main_rejected_arguments two_then_empty 2 ["token"; "--count"; "many"]
           (initial ∅)).
  reflexivity.
Defined.

Lemma main_touches_only_its_files_witness :
  files (main two_then_empty 2 ["token"; "--output"; "csv"]
           (initial {["notes.txt" := [Csv_row [VStr "kept"]]]})).2 !! "notes.txt"
  = Some [Csv_row [VStr "kept"]].
Proof.
  by rewrite (main_touches_only_its_files two_then_empty 2 ["token"; "--output"; "csv"]
                (initial {["notes.txt" := [Csv_row [VStr "kept"]]]}) "notes.txt").
Defined.

Lemma main_exports_all_pages_witness :
  (main three_then_empty 5 ["token"] (initial ∅)).1 = Returns ()
  ∧ sent (main three_then_empty 5 ["token"] (initial ∅)).2
    = page_requests "licensing" 1000 "token" 3
  ∧ files (main three_then_empty 5 ["token"] (initial ∅)).2
    = {["paginated_results.json" := [Json_text (VList [id1; id2; id3]) 2]]}.
Proof.
  apply (main_exports_all_pages three_then_empty 5 "token" (initial ∅)
           [[id1; id2]; [id3]]).
  - reflexivity.
  - serve_pages.
  - left. eexists. split; [reflexivity|by left].
  - simpl. lia.
Defined.

Lemma csv_export_first_not_object_witness :
  (main numbers 2 ["token"; "--output"; "csv"] (initial ∅)).1 = Raises AttributeError.
Proof.
  by rewrite (csv_export_first_not_object numbers 2 ["token"; "--output"; "csv"]
                (initial ∅) (initial ∅)
                (fetch_data numbers 2 "licensing" 1000 "token" (initial ∅)).2
                (Args "token" "licensing" 1000 "csv") (VInt 1) [VInt 2]);
    [|by vm_compute|reflexivity|by vm_compute|exact I].
Defined.


Lemma main_rejects_other_output_witness :
  main two_then_empty 2 ["token"; "--output"; "xml"] (initial ∅)
  = (Raises (SystemExit 2), initial ∅).
Proof.
  apply (main_rejects_other_output two_then_empty 2 "token" "xml" (initial ∅)).
  - reflexivity.
  - rewrite !elem_of_cons, elem_of_nil. by intros [|[|[]]].
Defined.

Lemma main_propagates_fetch_failure_witness :
  (main one_then_garbage 5 ["token"] (initial ∅)).1 = Raises JSONDecodeError
  ∧ files (main one_then_garbage 5 ["token"] (initial ∅)).2 = ∅.
Proof.
  eapply (main_propagates_fetch_failure one_then_garbage 5 ["token"] (initial ∅));
    reflexivity.
Defined.


Lemma csv_export_unencodable_header_witness :
  main surrogate_key 2 ["token"; "--output"; "csv"] (initial ∅)
  = (Raises UnicodeEncodeError,
     World (page_requests "licensing" 1000 "token" 2)
           [Show (exceptions [VDict [(lone_surrogate, VInt 1)]; id2]); Line "paginate: 1";
            Show (exceptions []); Line "paginate: 2"]
           {["paginated_results.csv" := []]}).
Proof.
  rewrite (csv_export_unencodable_header surrogate_key 2 ["token"; "--output"; "csv"]
             (initial ∅) (initial ∅)
             (fetch_data surrogate_key 2 "licensing" 1000 "token" (initial ∅)).2
             (Args "token" "licensing" 1000 "csv")
             [(lone_surrogate, VInt 1)] [id2] lone_surrogate);
    [by vm_compute|by vm_compute|reflexivity|by vm_compute|by left|reflexivity].
Defined.
